(** * The integrate-and-fire cell of LIF.ipynb

    A shallow embedding of the notebook cell "I&F CODE (version 2)"
    (src/beta versions/Integrate and Fire Model/LIF.ipynb):

<<
    I=1                     #Set the parameter I.
    C=1                     #Set the parameter C.
    Vth = 1;                #Define the voltage threshold.
    Vreset = 0;             #Define the reset voltage.
    dt=0.01                 #Set the timestep.
    V = np.zeros([1000,1])  #Initialize V.
    V[0]=0.2;               #Set the initial condition.

    for k in range(1,999):            #March forward in time,
        V[k+1] = V[k] + dt*(I/C)      #Update the voltage,
        if V[k+1] > Vth:              #... and check if the voltage exceeds the threshold.
            V[k+1] = Vreset
>>

    The cell's constants become the fields of [SimulationConfig]; the
    literal 1000 is the step count [N] and the loop bound 999 is [N - 1].
    The array [V] (1000 rows of one column) is a list of scalars that is
    read and written by index.  Arithmetic is kept behind the class
    [PyFloat], with two instances: exact rationals ([Q], the reals of the
    data model) and IEEE binary64 ([PrimFloat.float], what numpy computes
    with). *)

From Stdlib Require Import Floats.PrimFloat.
From Stdlib Require Import ZArith QArith Qminmax Qabs Lia Lqa.
From Stdlib Require Floats.SpecFloat Floats.FloatOps Floats.FloatAxioms.
From stdpp Require Import base list.

Set Warnings "-inexact-float".

(** ** Exceptions *)

(** The three built-in exceptions the cell can raise. *)
Inductive exn : Set :=
| ValueError          (* np.zeros with a negative dimension *)
| IndexError          (* an index outside the array *)
| ZeroDivisionError.  (* I/C with C == 0 *)

Inductive result (T : Type) : Type :=
| Ok (x : T)
| Raise (e : exn).
Arguments Ok {T} x.
Arguments Raise {T} e.

Definition bind {T U : Type} (r : result T) (f : T -> result U) : result U :=
  match r with
  | Ok x => f x
  | Raise e => Raise e
  end.

Notation "x <~ r ;; k" := (bind r (fun x => k))
  (at level 100, r at next level, right associativity).

(** ** Numbers *)

(** The operations the cell applies to its numbers. [is_zero] is the test
    that makes Python's [/] raise ZeroDivisionError. *)
Class PyFloat (A : Type) : Type := {
  zero : A;
  add : A -> A -> A;
  mul : A -> A -> A;
  div : A -> A -> A;
  gt : A -> A -> bool;
  is_zero : A -> bool
}.

Definition truediv {A : Type} `{PyFloat A} (x y : A) : result A :=
  if is_zero y then Raise ZeroDivisionError else Ok (div x y).

(** Exact rationals. *)
#[export] Instance Q_PyFloat : PyFloat Q := {|
  zero := 0%Q;
  add := Qplus;
  mul := Qmult;
  div := Qdiv;
  gt := fun x y => negb (Qle_bool x y);
  is_zero := fun x => Qeq_bool x 0
|}.

(** IEEE 754 binary64, the element type of the numpy array. *)
#[export] Instance float_PyFloat : PyFloat PrimFloat.float := {|
  zero := 0%float;
  add := PrimFloat.add;
  mul := PrimFloat.mul;
  div := PrimFloat.div;
  gt := fun x y => PrimFloat.ltb y x;
  is_zero := fun x => PrimFloat.eqb x 0%float
|}.

(** ** Data model *)

Record SimulationConfig (A : Type) : Type := {
  I : A;        (* input current *)
  C : A;        (* membrane capacitance *)
  dt : A;       (* time step *)
  N : Z;        (* number of samples, the 1000 of the cell *)
  Vth : A;      (* voltage threshold *)
  Vreset : A;   (* reset voltage *)
  V0 : A        (* initial condition *)
}.
Arguments I {A} _.
Arguments C {A} _.
Arguments dt {A} _.
Arguments N {A} _.
Arguments Vth {A} _.
Arguments Vreset {A} _.
Arguments V0 {A} _.

(** ** The cell *)

Section Cell.
Context {A : Type} `{PyFloat A}.

(** [np.zeros([n,1])] *)
Definition zeros (n : Z) : result (list A) :=
  if (n <? 0)%Z then Raise ValueError
  else Ok (replicate (Z.to_nat n) zero).

(** [V[i]] for an index [i >= 0] *)
Definition getitem (V : list A) (i : nat) : result A :=
  match V !! i with
  | Some x => Ok x
  | None => Raise IndexError
  end.

(** [V[i] = x] for an index [i >= 0] *)
Definition setitem (V : list A) (i : nat) (x : A) : result (list A) :=
  if decide (i < length V)%nat then Ok (<[i:=x]> V) else Raise IndexError.

(** [range(lo, hi)] for [lo >= 0] *)
Definition range (lo hi : Z) : list nat :=
  seq (Z.to_nat lo) (Z.to_nat (hi - lo)).

(** The loop body at index [k]. *)
Definition body (cfg : SimulationConfig A) (V : list A) (k : nat)
  : result (list A) :=
  vk <~ getitem V k ;;
  q <~ truediv (I cfg) (C cfg) ;;
  V <~ setitem V (k + 1) (add vk (mul (dt cfg) q)) ;;
  vk1 <~ getitem V (k + 1) ;;
  if gt vk1 (Vth cfg) then setitem V (k + 1) (Vreset cfg) else Ok V.

(** [for k in ks: body] *)
Fixpoint for_each (cfg : SimulationConfig A) (ks : list nat) (V : list A)
  : result (list A) :=
  match ks with
  | [] => Ok V
  | k :: ks => V <~ body cfg V k ;; for_each cfg ks V
  end.

(** The whole cell, from the allocation of [V] to the end of the loop. *)
Definition simulate (cfg : SimulationConfig A) : result (list A) :=
  V <~ zeros (N cfg) ;;
  V <~ setitem V 0 (V0 cfg) ;;
  for_each cfg (range 1 (N cfg - 1)) V.

(** *** What one iteration stores

    The value the body has left in [V[k+1]] when it read [v] from
    [V[k]]: the candidate, or [Vreset] when the candidate is above the
    threshold. *)
Definition candidate (cfg : SimulationConfig A) (v : A) : A :=
  add v (mul (dt cfg) (div (I cfg) (C cfg))).

Definition next (cfg : SimulationConfig A) (v : A) : A :=
  if gt (candidate cfg v) (Vth cfg) then Vreset cfg else candidate cfg v.

(** The [n] values that follow [v] under [next]. *)
Fixpoint recurrence (cfg : SimulationConfig A) (n : nat) (v : A) : list A :=
  match n with
  | O => []
  | S n => next cfg v :: recurrence cfg n (next cfg v)
  end.

(** The array the cell ends with: [V[0]] is the initial condition,
    [V[1]] is still the zero of the allocation, and the loop has filled
    [V[2]] .. [V[N-1]] starting from [V[1]]. *)
Definition code_trace (cfg : SimulationConfig A) : list A :=
  take (Z.to_nat (N cfg))
       (V0 cfg :: zero :: recurrence cfg (Z.to_nat (N cfg) - 2) zero).

(** The trace of the specification (section 4.1): trace[0] = V0, and for
    k from 0 to N-2, trace[k+1] = Vreset if candidate > Vth else
    candidate, with candidate = trace[k] + dt * (I / C). *)
Definition spec_trace (cfg : SimulationConfig A) : list A :=
  V0 cfg :: recurrence cfg (Z.to_nat (N cfg) - 1) (V0 cfg).

(** The configuration whose specified trace the loop actually computes:
    one sample fewer, started from the zero of the allocation. *)
Definition restarted (cfg : SimulationConfig A) : SimulationConfig A := {|
  I := I cfg; C := C cfg; dt := dt cfg; N := N cfg - 1;
  Vth := Vth cfg; Vreset := Vreset cfg; V0 := zero
|}.

(** *** The cell as a relation on stores

    One rule per way through the body, the loop and the cell. *)
Inductive body_step (cfg : SimulationConfig A) (k : nat) (V : list A)
  : result (list A) -> Prop :=
| body_read_fails :
    V !! k = None ->
    body_step cfg k V (Raise IndexError)
| body_div_fails vk :
    V !! k = Some vk ->
    is_zero (C cfg) = true ->
    body_step cfg k V (Raise ZeroDivisionError)
| body_write_fails vk :
    V !! k = Some vk ->
    is_zero (C cfg) = false ->
    (length V <= k + 1)%nat ->
    body_step cfg k V (Raise IndexError)
| body_keep vk :
    V !! k = Some vk ->
    is_zero (C cfg) = false ->
    (k + 1 < length V)%nat ->
    gt (candidate cfg vk) (Vth cfg) = false ->
    body_step cfg k V (Ok (<[k + 1 := candidate cfg vk]> V))
| body_reset vk :
    V !! k = Some vk ->
    is_zero (C cfg) = false ->
    (k + 1 < length V)%nat ->
    gt (candidate cfg vk) (Vth cfg) = true ->
    body_step cfg k V
      (Ok (<[k + 1 := Vreset cfg]> (<[k + 1 := candidate cfg vk]> V))).

Inductive loop_steps (cfg : SimulationConfig A)
  : list nat -> list A -> result (list A) -> Prop :=
| loop_done V :
    loop_steps cfg [] V (Ok V)
| loop_next k ks V V' r :
    body_step cfg k V (Ok V') ->
    loop_steps cfg ks V' r ->
    loop_steps cfg (k :: ks) V r
| loop_raise k ks V e :
    body_step cfg k V (Raise e) ->
    loop_steps cfg (k :: ks) V (Raise e).

Inductive run (cfg : SimulationConfig A) : result (list A) -> Prop :=
| run_alloc_fails :
    (N cfg < 0)%Z ->
    run cfg (Raise ValueError)
| run_init_fails :
    N cfg = 0%Z ->
    run cfg (Raise IndexError)
| run_loop r :
    (1 <= N cfg)%Z ->
    loop_steps cfg (range 1 (N cfg - 1))
      (<[0%nat := V0 cfg]> (replicate (Z.to_nat (N cfg)) zero)) r ->
    run cfg r.

End Cell.

(** ** The other cells of the notebook *)

Section OtherCells.
Context {A : Type} `{PyFloat A}.

(** *** I&F CODE (version 1): the loop without the threshold

<<
    V = np.zeros([1000,1])  #Initialize V.
    V[0]=0.2;               #Set the initial value of V.

    for k in range(1,999):            #March forward in time,
        V[k+1] = V[k] + dt*(I/C)      #... updating V along the way.
>>
    The cell has no [Vth] and no [Vreset]; those fields are not read. *)
Definition body_v1 (cfg : SimulationConfig A) (V : list A) (k : nat)
  : result (list A) :=
  vk <~ getitem V k ;;
  q <~ truediv (I cfg) (C cfg) ;;
  setitem V (k + 1) (add vk (mul (dt cfg) q)).

Fixpoint for_each_v1 (cfg : SimulationConfig A) (ks : list nat) (V : list A)
  : result (list A) :=
  match ks with
  | [] => Ok V
  | k :: ks => V <~ body_v1 cfg V k ;; for_each_v1 cfg ks V
  end.

Definition simulate_v1 (cfg : SimulationConfig A) : result (list A) :=
  V <~ zeros (N cfg) ;;
  V <~ setitem V 0 (V0 cfg) ;;
  for_each_v1 cfg (range 1 (N cfg - 1)) V.

(** The [n] values that follow [v] when nothing is ever reset. *)
Fixpoint ramp (cfg : SimulationConfig A) (n : nat) (v : A) : list A :=
  match n with
  | O => []
  | S n => candidate cfg v :: ramp cfg n (candidate cfg v)
  end.

Definition trace_v1 (cfg : SimulationConfig A) : list A :=
  take (Z.to_nat (N cfg))
       (V0 cfg :: zero :: ramp cfg (Z.to_nat (N cfg) - 2) zero).

(** *** Part 4: the threshold loop, run on the array the session holds

<<
    Vth = 1;        #Define the voltage threshold.
    Vreset = 0;     #Define the reset voltage.

    for k in range(1,999):            #March forward in time,
        V[k+1] = V[k] + dt*(I/C)      #Update the voltage,
        if V[k+1] > Vth:              #... and check if the voltage exceeds the threshold.
            V[k+1] = Vreset
>>
    The cell allocates nothing: [V] is whatever the cells before it have
    left. *)
Definition threshold_loop (cfg : SimulationConfig A) (V : list A)
  : result (list A) :=
  for_each cfg (range 1 (N cfg - 1)) V.

(** The same configuration with another initial condition. *)
Definition with_V0 (cfg : SimulationConfig A) (v : A) : SimulationConfig A := {|
  I := I cfg; C := C cfg; dt := dt cfg; N := N cfg;
  Vth := Vth cfg; Vreset := Vreset cfg; V0 := v
|}.

End OtherCells.

(** *** The time axis

    [t = np.arange(0,len(V))*dt]: the integers 0 .. len(V)-1, each turned
    into a number of the array's type and multiplied by [dt]. *)
Definition arange (lo hi : Z) : list Z :=
  map (fun i => (lo + Z.of_nat i)%Z) (seq 0 (Z.to_nat (hi - lo))).

(** The conversion of an integer of [np.arange] to a number. *)
Class PyFromInt (A : Type) : Type := from_int : Z -> A.

#[export] Instance Q_PyFromInt : PyFromInt Q := inject_Z.

(** For binary64, the nearest float (exact below 2^53). *)
#[export] Instance float_PyFromInt : PyFromInt float :=
  fun k => PrimFloat.of_uint63 (Uint63Axioms.of_Z k).

Definition time_axis {A : Type} `{PyFloat A} `{PyFromInt A}
  (V : list A) (dt : A) : list A :=
  map (fun k => mul (from_int k) dt) (arange 0 (Z.of_nat (length V))).

(** The cell of version 2 up to its plot: the two arrays handed to
    [plt.plot(t,V)]. *)
Definition cell_v2 {A : Type} `{PyFloat A} `{PyFromInt A}
  (cfg : SimulationConfig A) : result (list A * list A) :=
  V <~ simulate cfg ;;
  Ok (time_axis V (dt cfg), V).


(** The change of voltage per step, [dt*(I/C)], over the rationals. *)
Definition dV (cfg : SimulationConfig Q) : Q := (dt cfg * (I cfg / C cfg))%Q.

(** ** The autocovariance supplement

    The computing lines of the cell of "Supplement. Biased versus unbiased
    autocovariance.ipynb", over the rationals:

<<
    N = len(x)
    lags = np.arange(-N + 1, N)               # Compute the lags
    ac = np.correlate(x - x.mean(), x - x.mean(), mode="full")
    ac_b = 1 / N * ac                         # Calculate biased autocovariance
    ac_u = 1 / (N - np.abs(lags)) * ac        # ... and unbiased autocovariance
>>
    [x] is the recording loaded from the data file; here it is the
    argument. *)

Definition Qsum (l : list Q) : Q := foldr Qplus 0%Q l.

(** [x.mean()] *)
Definition mean (x : list Q) : Q :=
  (Qsum x / inject_Z (Z.of_nat (length x)))%Q.

(** [a[i]] for any integer [i], with 0 outside the array: full mode sums
    over the indices at which the two arrays overlap. *)
Definition padded (a : list Q) (i : Z) : Q :=
  if (i <? 0)%Z then 0%Q else default 0%Q (a !! Z.to_nat i).

(** Entry [k] of the cross-correlation, [c_k = sum_n a[n+k] * v[n]]. *)
Definition correlation_at (a v : list Q) (k : Z) : Q :=
  Qsum (map (fun n => (padded a (n + k) * padded v n)%Q)
            (arange 0 (Z.of_nat (length v)))).

(** [np.correlate(a, v, mode="full")]: the entries [c_k] for
    [k = -(len(v)-1) .. len(a)-1]; an empty argument is refused. *)
Definition correlate_full (a v : list Q) : result (list Q) :=
  match a, v with
  | [], _ | _, [] => Raise ValueError
  | _, _ =>
      Ok (map (correlation_at a v)
              (arange (- (Z.of_nat (length v) - 1)) (Z.of_nat (length a))))
  end.

Record Autocovariance : Type := {
  lags : list Z;
  ac : list Q;
  ac_b : list Q;
  ac_u : list Q
}.

(** [x - x.mean()] *)
Definition centred (x : list Q) : list Q :=
  map (fun xn => (xn - mean x)%Q) x.

Definition autocovariance (x : list Q) : result Autocovariance :=
  let N := Z.of_nat (length x) in
  let lags := arange (- N + 1) N in
  ac <~ correlate_full (centred x) (centred x) ;;
  let ac_b := map (fun c => (1 / inject_Z N * c)%Q) ac in
  let ac_u :=
    zip_with (fun l c => (1 / inject_Z (N - Z.abs l) * c)%Q) lags ac in
  Ok {| lags := lags; ac := ac; ac_b := ac_b; ac_u := ac_u |}.

(** ** Configurations used below *)

(** The configuration written in the cell, as numpy computes with it. *)
Definition notebook_float : SimulationConfig float := {|
  I := 1%float; C := 1%float; Vth := 1%float; Vreset := 0%float;
  dt := 0.01%float; N := 1000; V0 := 0.2%float
|}.

(** The same configuration over the rationals, stopped after 82
    samples. *)
Definition scenario_prefix_Q : SimulationConfig Q := {|
  I := 1%Q; C := 1%Q; Vth := 1%Q; Vreset := 0%Q;
  dt := (1 # 100)%Q; N := 82; V0 := (1 # 5)%Q
|}.

(** The cell's values over the rationals, stopped after 50 samples: no
    candidate gets near the threshold. *)
Definition short_run_Q : SimulationConfig Q := {|
  I := 1%Q; C := 1%Q; Vth := 1%Q; Vreset := 0%Q;
  dt := (1 # 100)%Q; N := 50; V0 := (1 # 5)%Q
|}.

(** A coarse time step: the voltage lands exactly on the threshold at
    index 3 and goes over it at index 4. *)
Definition coarse_Q : SimulationConfig Q := {|
  I := 1%Q; C := 1%Q; Vth := 1%Q; Vreset := 0%Q;
  dt := (1 # 2)%Q; N := 6; V0 := (1 # 5)%Q
|}.

Definition coarse_trace : list Q :=
  [(1 # 5)%Q; 0%Q; (1 # 2)%Q; (4 # 4)%Q; 0%Q; (1 # 2)%Q].




(** The coarse time step in binary64; 0.5 and its multiples are exact. *)
Definition coarse_float : SimulationConfig float := {|
  I := 1%float; C := 1%float; Vth := 1%float; Vreset := 0%float;
  dt := 0.5%float; N := 6; V0 := 0.2%float
|}.

Definition coarse_float_trace_v1 : list float :=
  [0.2; 0; 0.5; 1; 1.5; 2]%float.

Definition coarse_float_trace : list float :=
  [0.2; 0; 0.5; 1; 0; 0.5]%float.

(** No input current, and a threshold below the resting voltage. *)
Definition no_current_Q : SimulationConfig Q := {|
  I := 0%Q; C := 1%Q; Vth := (-1)%Q; Vreset := (-5)%Q;
  dt := (1 # 100)%Q; N := 5; V0 := 0%Q
|}.

(** A recording of three samples for the supplement. *)
Definition three_samples : list Q := [1; 2; 4]%Q.

Definition three_samples_result : Autocovariance := {|
  lags := [-2; -1; 0; 1; 2]%Z;
  ac := [-180 # 81; -27 # 243; 3402 # 729; -27 # 243; -180 # 81]%Q;
  ac_b := [-180 # 243; -27 # 729; 3402 # 2187; -27 # 729; -180 # 243]%Q;
  ac_u := [-180 # 81; -27 # 486; 3402 # 2187; -27 # 486; -180 # 81]%Q
|}.

(** A reset voltage above the threshold. *)
Definition reset_above_Q : SimulationConfig Q := {|
  I := 1%Q; C := 1%Q; Vth := 1%Q; Vreset := 2%Q;
  dt := (1 # 2)%Q; N := 6; V0 := (1 # 5)%Q
|}.

Definition reset_above_trace : list Q :=
  [(1 # 5)%Q; 0%Q; (1 # 2)%Q; (4 # 4)%Q; 2%Q; 2%Q].

(** The array version 1 leaves for [coarse_Q]. *)
Definition coarse_trace_v1 : list Q :=
  [(1 # 5)%Q; 0%Q; (1 # 2)%Q; (4 # 4)%Q; (12 # 8)%Q; (32 # 16)%Q].

(** A run that stays below the threshold. *)
Definition gentle_Q : SimulationConfig Q := {|
  I := 1%Q; C := 1%Q; Vth := 1%Q; Vreset := 0%Q;
  dt := (1 # 4)%Q; N := 5; V0 := (1 # 5)%Q
|}.

Definition gentle_trace : list Q :=
  [(1 # 5)%Q; 0%Q; (1 # 4)%Q; (8 # 16)%Q; (48 # 64)%Q].

(** One iteration of the loop, derived with the rule that applies. *)
Ltac body_rule :=
  first
    [ eapply body_keep; [reflexivity | reflexivity | vm_compute; lia | reflexivity]
    | eapply body_reset; [reflexivity | reflexivity | vm_compute; lia | reflexivity] ].


(** ** Facts that hold for any arithmetic *)

Lemma bind_ok {T U : Type} (r : result T) (f : T -> result U) (y : U) :
  bind r f = Ok y -> exists x, r = Ok x /\ f x = Ok y.
Proof. destruct r as [x|e]; simpl; [eauto | discriminate]. Qed.

Section CellFacts.
Context {A : Type} `{PyFloat A}.
Implicit Types (cfg : SimulationConfig A) (V : list A) (v x : A).
Implicit Types (i j k m n : nat).

Lemma getitem_ok V i x : getitem V i = Ok x <-> V !! i = Some x.
Proof. unfold getitem. destruct (V !! i); split; congruence. Qed.

Lemma setitem_ok V i x : (i < length V)%nat -> setitem V i x = Ok (<[i:=x]> V).
Proof. intros Hi. unfold setitem. destruct (decide _); [done | lia]. Qed.

Lemma setitem_inv V i x V' :
  setitem V i x = Ok V' -> (i < length V)%nat /\ V' = <[i:=x]> V.
Proof. unfold setitem. destruct (decide _); intros [= <-]; done. Qed.

Lemma length_recurrence cfg n v : length (recurrence cfg n v) = n.
Proof. revert v; induction n as [|n IH]; intros v; simpl; [done | by rewrite IH]. Qed.

(** Consecutive elements of a stretch filled by the recurrence. *)
Lemma recurrence_lookup_succ cfg n v i x :
  (i < n)%nat ->
  (v :: recurrence cfg n v) !! i = Some x ->
  (v :: recurrence cfg n v) !! S i = Some (next cfg x).
Proof.
  revert v i. induction n as [|n IH]; intros v i Hi Hx; [lia|].
  destruct i as [|i]; simpl in *.
  - by injection Hx as <-.
  - apply (IH (next cfg v) i); [lia | exact Hx].
Qed.

(** *** The body *)

Lemma body_ok cfg V k vk :
  V !! k = Some vk ->
  is_zero (C cfg) = false ->
  (k + 1 < length V)%nat ->
  body cfg V k = Ok (<[k + 1 := next cfg vk]> V).
Proof.
  intros Hk HC Hlen. unfold body, truediv, next, candidate.
  apply getitem_ok in Hk. rewrite Hk, HC. simpl.
  rewrite setitem_ok by done. simpl.
  unfold getitem. rewrite list_lookup_insert_eq by done. cbn [bind].
  destruct (gt _ _); [|done].
  rewrite setitem_ok by (by rewrite length_insert).
  by rewrite list_insert_insert_eq.
Qed.

Lemma body_zero_division cfg V k vk :
  V !! k = Some vk ->
  is_zero (C cfg) = true ->
  body cfg V k = Raise ZeroDivisionError.
Proof.
  intros Hk HC. unfold body, truediv.
  apply getitem_ok in Hk. by rewrite Hk, HC.
Qed.

(** A successful iteration read [V[k]], divided by a nonzero [C] and
    stored into [V[k+1]]. *)
Lemma body_inv cfg V k V' :
  body cfg V k = Ok V' ->
  exists vk, V !! k = Some vk /\ is_zero (C cfg) = false /\
             (k + 1 < length V)%nat /\ V' = <[k + 1 := next cfg vk]> V.
Proof.
  intros Hb. assert (Hb0 := Hb). unfold body in Hb.
  apply bind_ok in Hb as (vk & Hk & Hb). apply getitem_ok in Hk.
  apply bind_ok in Hb as (q & Hq & Hb). unfold truediv in Hq.
  destruct (is_zero (C cfg)) eqn:HC; [discriminate|].
  apply bind_ok in Hb as (V1 & HV1 & _).
  apply setitem_inv in HV1 as [Hlen _].
  rewrite (body_ok cfg V k vk Hk HC Hlen) in Hb0. injection Hb0 as <-.
  by exists vk.
Qed.

(** *** The loop *)

(** The loop writes one cell per index it visits, the one after it, and
    nothing else. *)
Lemma for_each_frame cfg ks V V' :
  for_each cfg ks V = Ok V' ->
  length V' = length V /\
  forall j, (forall k, k ∈ ks -> j <> (k + 1)%nat) -> V' !! j = V !! j.
Proof.
  revert V. induction ks as [|k ks IH]; intros V Hrun; simpl in Hrun.
  - injection Hrun as <-. done.
  - apply bind_ok in Hrun as (V1 & Hb & Hrun).
    apply body_inv in Hb as (vk & _ & _ & _ & ->).
    apply IH in Hrun as [Hlen Hsame]. split.
    + by rewrite Hlen, length_insert.
    + intros j Hj. rewrite Hsame.
      * apply list_lookup_insert_ne. intros <-.
        exact (Hj k (list_elem_of_here _ _) eq_refl).
      * intros k' Hk'. apply Hj. by apply list_elem_of_further.
Qed.

(** Started on the cell right after [pre], the loop fills the next [j]
    cells with the recurrence and leaves the rest of the array alone. *)
Lemma for_each_fill cfg j : forall pre v rest,
  is_zero (C cfg) = false ->
  (j <= length rest)%nat ->
  for_each cfg (seq (length pre) j) (pre ++ v :: rest)
  = Ok (pre ++ v :: recurrence cfg j v ++ drop j rest).
Proof.
  induction j as [|j IH]; intros pre v rest HC Hj.
  - simpl. by rewrite drop_0.
  - destruct rest as [|r rest]; [simpl in Hj; lia|].
    cbn [seq for_each].
    rewrite (body_ok cfg _ _ v).
    + cbn [bind].
      replace (<[length pre + 1 := next cfg v]> (pre ++ v :: r :: rest))
        with ((pre ++ [v]) ++ next cfg v :: rest).
      2:{ rewrite <- (assoc_L (++)). simpl.
          by rewrite insert_app_r. }
      replace (S (length pre)) with (length (pre ++ [v]))
        by (rewrite length_app; simpl; lia).
      rewrite IH by (simpl in Hj; done || lia).
      by rewrite <- (assoc_L (++)).
    + by apply list_lookup_middle.
    + done.
    + rewrite length_app. simpl. lia.
Qed.

(** *** The cell *)

Lemma simulate_value_error cfg :
  (N cfg < 0)%Z -> simulate cfg = Raise ValueError.
Proof.
  intros HN. unfold simulate, zeros.
  by rewrite (proj2 (Z.ltb_lt _ _) HN).
Qed.

Lemma simulate_index_error cfg :
  N cfg = 0%Z -> simulate cfg = Raise IndexError.
Proof. intros HN. unfold simulate, zeros. by rewrite HN. Qed.

Lemma simulate_unfold cfg :
  (1 <= N cfg)%Z ->
  simulate cfg
  = for_each cfg (seq 1 (Z.to_nat (N cfg) - 2))
      (V0 cfg :: replicate (Z.to_nat (N cfg) - 1) zero).
Proof.
  intros HN. unfold simulate, zeros, range.
  rewrite (proj2 (Z.ltb_ge _ _)) by lia. cbn [bind].
  replace (Z.to_nat (N cfg - 1 - 1)) with (Z.to_nat (N cfg) - 2)%nat by lia.
  destruct (Z.to_nat (N cfg)) as [|n] eqn:Hn; [lia|].
  simpl. by rewrite Nat.sub_0_r.
Qed.

Lemma simulate_zero_division cfg :
  (3 <= N cfg)%Z -> is_zero (C cfg) = true ->
  simulate cfg = Raise ZeroDivisionError.
Proof.
  intros HN HC. rewrite simulate_unfold by lia.
  destruct (Z.to_nat (N cfg)) as [|[|[|n]]] eqn:Hn; try lia.
  cbn [Nat.sub seq for_each replicate].
  by rewrite (body_zero_division cfg _ 1 zero).
Qed.

Lemma simulate_ok cfg :
  (1 <= N cfg)%Z ->
  (N cfg <= 2)%Z \/ is_zero (C cfg) = false ->
  simulate cfg = Ok (code_trace cfg).
Proof.
  intros HN HC. rewrite simulate_unfold by lia. unfold code_trace.
  destruct (Z.to_nat (N cfg)) as [|[|n]] eqn:Hn; [lia|done|].
  cbn [Nat.sub]. rewrite Nat.sub_0_r.
  destruct n as [|n]; [done|].
  destruct HC as [HC|HC]; [lia|].
  refine (eq_trans
            (for_each_fill cfg (S n) [V0 cfg] zero (replicate (S n) zero) HC _)
            _).
  - by rewrite length_replicate.
  - rewrite drop_ge by (by rewrite length_replicate).
    rewrite app_nil_r. simpl app.
    rewrite take_ge; [done|].
    simpl. rewrite length_recurrence. lia.
Qed.

(** A run that returns is a run with at least one sample and, when the
    loop has an iteration to make, a nonzero capacitance. *)
Lemma simulate_inv cfg tr :
  simulate cfg = Ok tr ->
  (1 <= N cfg)%Z /\ ((N cfg <= 2)%Z \/ is_zero (C cfg) = false) /\
  tr = code_trace cfg.
Proof.
  intros Hrun.
  destruct (Z.lt_trichotomy (N cfg) 0) as [HN|[HN|HN]].
  - rewrite simulate_value_error in Hrun by done. discriminate.
  - rewrite simulate_index_error in Hrun by done. discriminate.
  - assert (HC : (N cfg <= 2)%Z \/ is_zero (C cfg) = false).
    { destruct (is_zero (C cfg)) eqn:HC; [left|by right].
      destruct (Z_le_gt_dec (N cfg) 2) as [|Hgt]; [done|].
      rewrite simulate_zero_division in Hrun by (done || lia).
      discriminate. }
    rewrite simulate_ok in Hrun by (done || lia).
    injection Hrun as <-. repeat split; (done || lia).
Qed.

Lemma length_code_trace cfg : length (code_trace cfg) = Z.to_nat (N cfg).
Proof.
  unfold code_trace. rewrite length_take. simpl.
  rewrite length_recurrence. lia.
Qed.

Lemma code_trace_lookup_0 cfg :
  (1 <= N cfg)%Z -> code_trace cfg !! 0%nat = Some (V0 cfg).
Proof.
  intros HN. unfold code_trace. by rewrite lookup_take_lt by lia.
Qed.

Lemma code_trace_lookup_1 cfg :
  (2 <= N cfg)%Z -> code_trace cfg !! 1%nat = Some zero.
Proof.
  intros HN. unfold code_trace. by rewrite lookup_take_lt by lia.
Qed.

Lemma code_trace_lookup_succ cfg k x :
  (1 <= k)%nat ->
  code_trace cfg !! k = Some x ->
  (k + 1 < Z.to_nat (N cfg))%nat ->
  code_trace cfg !! (k + 1)%nat = Some (next cfg x).
Proof.
  intros Hk Hx HkN. unfold code_trace in *.
  rewrite lookup_take_lt in Hx by lia. rewrite lookup_take_lt by lia.
  destruct k as [|k]; [lia|]. simpl in Hx. replace (S k + 1)%nat with (S (S k)) by lia.
  change ((zero :: recurrence cfg (Z.to_nat (N cfg) - 2) zero) !! S k
          = Some (next cfg x)).
  apply recurrence_lookup_succ; [lia | exact Hx].
Qed.


(** From index 1 on, the cell's trace is the specified trace of the
    restarted configuration: the specified recurrence, one index late and
    from 0 instead of [V0]. *)
Lemma recurrence_restarted cfg n v :
  recurrence (restarted cfg) n v = recurrence cfg n v.
Proof.
  revert v. induction n as [|n IH]; intros v; [done|].
  simpl. rewrite IH. done.
Qed.

Lemma code_trace_shifted cfg :
  (2 <= N cfg)%Z ->
  code_trace cfg = V0 cfg :: spec_trace (restarted cfg).
Proof.
  intros HN. unfold code_trace, spec_trace.
  rewrite recurrence_restarted. cbn [V0 N restarted].
  replace (Z.to_nat (N cfg - 1) - 1)%nat with (Z.to_nat (N cfg) - 2)%nat by lia.
  apply take_ge. simpl. rewrite length_recurrence. lia.
Qed.

(** *** The relation and the function agree *)

Lemma body_step_body cfg k V : body_step cfg k V (body cfg V k).
Proof.
  destruct (V !! k) as [vk|] eqn:Hk.
  - destruct (is_zero (C cfg)) eqn:HC.
    + rewrite (body_zero_division cfg V k vk) by done.
      by apply (body_div_fails cfg k V vk).
    + destruct (decide (k + 1 < length V)%nat) as [Hlen|Hlen].
      * rewrite (body_ok cfg V k vk) by done. unfold next.
        destruct (gt (candidate cfg vk) (Vth cfg)) eqn:Hgt.
        -- rewrite <- (list_insert_insert_eq V (k + 1) (Vreset cfg) (candidate cfg vk)).
           by apply body_reset.
        -- by apply body_keep.
      * replace (body cfg V k) with (@Raise (list A) IndexError).
        -- apply (body_write_fails cfg k V vk); (done || lia).
        -- unfold body, truediv, getitem, setitem. rewrite Hk, HC. simpl.
           by destruct (decide _).
  - replace (body cfg V k) with (@Raise (list A) IndexError).
    + by apply body_read_fails.
    + unfold body, getitem. by rewrite Hk.
Qed.

Lemma body_step_fun cfg k V r1 r2 :
  body_step cfg k V r1 -> body_step cfg k V r2 -> r1 = r2.
Proof.
  intros H1 H2.
  destruct H1; destruct H2; try done; try congruence; try lia;
    repeat match goal with
           | Ha : V !! k = Some ?a, Hb : V !! k = Some ?b |- _ =>
               assert (a = b) by congruence; subst b; clear Hb
           end; congruence.
Qed.

Lemma loop_steps_for_each cfg ks : forall V, loop_steps cfg ks V (for_each cfg ks V).
Proof.
  induction ks as [|k ks IH]; intros V; simpl.
  - constructor.
  - pose proof (body_step_body cfg k V) as Hb.
    destruct (body cfg V k) as [V'|e]; simpl.
    + by apply (loop_next cfg k ks V V').
    + by apply loop_raise.
Qed.

Lemma loop_steps_fun cfg ks V r1 r2 :
  loop_steps cfg ks V r1 -> loop_steps cfg ks V r2 -> r1 = r2.
Proof.
  intros H1. revert r2.
  induction H1 as [V|k ks V V' r Hb _ IH|k ks V e Hb]; intros r2 H2;
    inversion H2; subst; try done.
  - match goal with
    | Hb' : body_step cfg k V (Ok ?W) |- _ =>
        assert (Ok V' = Ok W) as [= <-] by (by eapply body_step_fun)
    end.
    by apply IH.
  - match goal with
    | Hb' : body_step cfg k V (Raise _) |- _ =>
        by pose proof (body_step_fun _ _ _ _ _ Hb Hb')
    end.
  - match goal with
    | Hb' : body_step cfg k V (Ok _) |- _ =>
        by pose proof (body_step_fun _ _ _ _ _ Hb Hb')
    end.
  - match goal with
    | Hb' : body_step cfg k V (Raise _) |- _ =>
        by pose proof (body_step_fun _ _ _ _ _ Hb Hb')
    end.
Qed.

Lemma run_simulate cfg : run cfg (simulate cfg).
Proof.
  destruct (Z.lt_trichotomy (N cfg) 0) as [HN|[HN|HN]].
  - rewrite simulate_value_error by done. by apply run_alloc_fails.
  - rewrite simulate_index_error by done. by apply run_init_fails.
  - apply run_loop; [lia|].
    replace (simulate cfg)
      with (for_each cfg (range 1 (N cfg - 1))
              (<[0%nat := V0 cfg]> (replicate (Z.to_nat (N cfg)) zero))).
    + apply loop_steps_for_each.
    + unfold simulate, zeros.
      rewrite (proj2 (Z.ltb_ge _ _)) by lia. cbn [bind].
      rewrite setitem_ok by (rewrite length_replicate; lia). done.
Qed.

Lemma run_fun cfg r1 r2 : run cfg r1 -> run cfg r2 -> r1 = r2.
Proof.
  intros H1 H2. destruct H1; destruct H2; try done; try lia.
  by eapply loop_steps_fun.
Qed.

End CellFacts.

(** ** Facts about the exact-arithmetic instance *)

Section RationalFacts.
Implicit Types (cfg : SimulationConfig Q) (x y v : Q).

Lemma Q_gt_true x y : gt x y = true <-> (y < x)%Q.
Proof.
  change (gt x y) with (negb (Qle_bool x y)).
  rewrite negb_true_iff, <- not_true_iff_false, Qle_bool_iff.
  split; [apply Qnot_le_lt | apply Qlt_not_le].
Qed.

Lemma Q_gt_false x y : gt x y = false <-> (x <= y)%Q.
Proof.
  change (gt x y) with (negb (Qle_bool x y)).
  by rewrite negb_false_iff, Qle_bool_iff.
Qed.

Lemma Q_is_zero_true x : is_zero x = true <-> (x == 0)%Q.
Proof. change (is_zero x) with (Qeq_bool x 0). apply Qeq_bool_iff. Qed.

Lemma Q_is_zero_false x : is_zero x = false <-> ~ (x == 0)%Q.
Proof. by rewrite <- not_true_iff_false, Q_is_zero_true. Qed.

Lemma Q_positive_nonzero x : (0 < x)%Q -> is_zero x = false.
Proof.
  intros Hx. apply Q_is_zero_false. intros Heq.
  rewrite Heq in Hx. by apply (Qlt_irrefl 0).
Qed.

(** A candidate at most [Vth] is stored; one above it is replaced. *)
Lemma Q_next_keep cfg v :
  (candidate cfg v <= Vth cfg)%Q -> next cfg v = candidate cfg v.
Proof. intros Hle. unfold next. by rewrite (proj2 (Q_gt_false _ _) Hle). Qed.

Lemma Q_next_reset cfg v :
  (Vth cfg < candidate cfg v)%Q -> next cfg v = Vreset cfg.
Proof. intros Hlt. unfold next. by rewrite (proj2 (Q_gt_true _ _) Hlt). Qed.


(** Without input current the candidate is the voltage itself. *)
Lemma Q_candidate_no_current cfg v :
  (I cfg == 0)%Q -> (candidate cfg v == v)%Q.
Proof.
  intros HI. unfold candidate.
  change (v + dt cfg * (I cfg / C cfg) == v)%Q.
  rewrite HI. unfold Qdiv. ring.
Qed.

End RationalFacts.

(** ** Facts about the binary64 instance

    The order of binary64 on the values that are not NaN, from the
    specification of the primitive comparisons. *)

Section Binary64Facts.
Implicit Types (cfg : SimulationConfig float) (x y z v : float).









End Binary64Facts.

(** ** The claims that hold for any arithmetic *)

Section AnyArithmetic.
Context {A : Type} `{PyFloat A}.
Implicit Types (cfg : SimulationConfig A) (V tr : list A).

(** C8: the simulation is deterministic. Two runs of the cell on
    identical configurations end the same way, with the same exception or
    with traces that are equal element for element; for binary64 that is
    bit for bit. *)
Theorem run_deterministic cfg1 cfg2 (r1 r2 : result (list A)) :
  cfg1 = cfg2 -> run cfg1 r1 -> run cfg2 r2 -> r1 = r2.
Proof. intros <- H1 H2. by apply (run_fun cfg1). Qed.

(** C9: the loop assigns only the indices 2 .. N-1. Whatever the array
    holds when the loop starts, the loop leaves its length and its cells
    0 and 1 as they were; so in the trace of a run, index 1 still holds
    the zero it was allocated with, whatever V0, I, C and dt are. *)
Theorem index_1_never_assigned cfg tr :
  simulate cfg = Ok tr ->
  (2 <= N cfg)%Z ->
  tr !! 1%nat = Some zero /\
  forall V V',
    for_each cfg (range 1 (N cfg - 1)) V = Ok V' ->
    length V' = length V /\
    V' !! 0%nat = V !! 0%nat /\ V' !! 1%nat = V !! 1%nat /\
    forall j, (Z.of_nat j < 2 \/ N cfg <= Z.of_nat j)%Z -> V' !! j = V !! j.
Proof.
  intros Hrun HN. split.
  - apply simulate_inv in Hrun as (_ & _ & ->). by apply code_trace_lookup_1.
  - intros V V' Hloop. apply for_each_frame in Hloop as [Hlen Hsame].
    assert (Hout : forall j, (Z.of_nat j < 2 \/ N cfg <= Z.of_nat j)%Z ->
                             V' !! j = V !! j).
    { intros j Hj. apply Hsame. intros k Hk.
      unfold range in Hk. apply elem_of_seq in Hk. lia. }
    repeat split; [done | apply Hout; lia | apply Hout; lia | done].
Qed.


End AnyArithmetic.

(** ** The claims over the reals of the data model *)

Section Rationals.
Implicit Types (cfg : SimulationConfig Q) (tr : list Q) (x y : Q).

(** C5: for every valid configuration (C > 0, N >= 1) the cell produces
    a trace, the trace has exactly N elements, and its element at index 0
    is V0. *)
Theorem trace_length_and_initial_value cfg :
  (0 < C cfg)%Q ->
  (1 <= N cfg)%Z ->
  exists tr,
    simulate cfg = Ok tr /\
    Z.of_nat (length tr) = N cfg /\
    tr !! 0%nat = Some (V0 cfg).
Proof.
  intros HC HN. exists (code_trace cfg). split; [|split].
  - apply simulate_ok; [done | right; by apply Q_positive_nonzero].
  - rewrite length_code_trace. lia.
  - by apply code_trace_lookup_0.
Qed.

(** C6: the reset comparison is strict. At every step k the loop makes
    (1 <= k <= N-2), with candidate = trace[k] + dt * (I / C): a candidate
    equal to Vth is stored unchanged at index k+1, and a candidate strictly
    greater than Vth is replaced by Vreset at index k+1. *)
Theorem reset_comparison_is_strict cfg tr k :
  simulate cfg = Ok tr ->
  (1 <= k)%nat ->
  (Z.of_nat k <= N cfg - 2)%Z ->
  exists x,
    tr !! k = Some x /\
    ((candidate cfg x == Vth cfg)%Q ->
     tr !! (k + 1)%nat = Some (candidate cfg x)) /\
    ((Vth cfg < candidate cfg x)%Q ->
     tr !! (k + 1)%nat = Some (Vreset cfg)).
Proof.
  intros Hrun Hk HkN. apply simulate_inv in Hrun as (_ & _ & ->).
  destruct (lookup_lt_is_Some_2 (code_trace cfg) k) as [x Hx].
  { rewrite length_code_trace. lia. }
  exists x. split; [done|].
  assert (Hs : code_trace cfg !! (k + 1)%nat = Some (next cfg x)).
  { apply code_trace_lookup_succ; (done || lia). }
  rewrite Hs. split; intros Hc.
  - rewrite Q_next_keep; [done|]. rewrite Hc. apply Qle_refl.
  - by rewrite Q_next_reset.
Qed.


(** C3, as the code has it: without input current (I = 0, C > 0,
    N >= 1) the cell produces a trace that starts at V0, and no step of
    the loop changes the voltage unless it is above the threshold:
    trace[k+1] equals trace[k] when trace[k] <= Vth and is Vreset when
    trace[k] > Vth. *)
Theorem no_current_steps_hold cfg :
  (I cfg == 0)%Q ->
  (0 < C cfg)%Q ->
  (1 <= N cfg)%Z ->
  exists tr,
    simulate cfg = Ok tr /\
    tr !! 0%nat = Some (V0 cfg) /\
    forall k x y,
      (1 <= k)%nat ->
      tr !! k = Some x ->
      tr !! (k + 1)%nat = Some y ->
      ((x <= Vth cfg)%Q -> (y == x)%Q) /\
      ((Vth cfg < x)%Q -> y = Vreset cfg).
Proof.
  intros HI HC HN. exists (code_trace cfg). split; [|split].
  - apply simulate_ok; [done | right; by apply Q_positive_nonzero].
  - by apply code_trace_lookup_0.
  - intros k x y Hk Hx Hy.
    assert (HkN : (k + 1 < Z.to_nat (N cfg))%nat).
    { apply lookup_lt_Some in Hy. by rewrite length_code_trace in Hy. }
    rewrite (code_trace_lookup_succ cfg k x) in Hy by done.
    injection Hy as <-.
    pose proof (Q_candidate_no_current cfg x HI) as Hc.
    split; intros Hx'.
    + rewrite Q_next_keep; [done|]. by rewrite Hc.
    + apply Q_next_reset. by rewrite Hc.
Qed.

End Rationals.

(** ** The cell's own run, and the runs that decide the other claims *)

(** C1: the loop of the cell does not produce the trace of the
    specification. On the cell's own configuration the specification's
    first step (k = 0) takes trace[0] = 0.2 to the candidate
    0.2 + 0.01 * (1 / 1), which is below Vth and so is trace[1]; the loop
    starts at k = 1, never reads V[0], and leaves trace[1] = 0. *)
Theorem loop_starts_at_index_1 :
  exists tr,
    simulate notebook_float = Ok tr /\
    tr !! 0%nat = Some 0.2%float /\
    tr !! 1%nat = Some 0%float /\
    candidate notebook_float 0.2%float = 0.21000000000000002%float /\
    gt (candidate notebook_float 0.2%float) (Vth notebook_float) = false /\
    spec_trace notebook_float !! 1%nat = Some 0.21000000000000002%float /\
    tr !! 1%nat <> spec_trace notebook_float !! 1%nat.
Proof.
  eexists. split; [vm_compute; reflexivity|].
  repeat split; try (vm_compute; reflexivity).
  intros Heq.
  apply (f_equal (fun o => match o with
                           | Some x => PrimFloat.eqb x 0%float
                           | None => false
                           end)) in Heq.
  vm_compute in Heq. discriminate.
Qed.

(** C2: the concrete scenario I=1, C=1, dt=0.01, N=1000, V0=0.2, Vth=1,
    Vreset=0 in binary64. The specification's trace has
    trace[79] = 0.99000000000000066 and trace[80] = 0 (the candidate
    1.0000000000000007 is above Vth). The cell's trace has trace[0] = 0.2
    but trace[79] = 0.78000000000000047 and trace[80] = 0.79000000000000048,
    which is not 0: it runs one step behind and from 0 instead of 0.2. *)
Theorem notebook_samples_79_and_80 :
  exists tr,
    simulate notebook_float = Ok tr /\
    tr !! 0%nat = Some 0.2%float /\
    tr !! 79%nat = Some 0.78000000000000047%float /\
    tr !! 80%nat = Some 0.79000000000000048%float /\
    PrimFloat.eqb 0.79000000000000048%float 0%float = false /\
    spec_trace notebook_float !! 79%nat = Some 0.99000000000000066%float /\
    candidate notebook_float 0.99000000000000066%float
      = 1.0000000000000007%float /\
    spec_trace notebook_float !! 80%nat = Some 0%float.
Proof.
  eexists. split; [vm_compute; reflexivity|].
  repeat split; vm_compute; reflexivity.
Qed.

(** The first 82 samples of the same scenario in exact arithmetic. The
    cell is again at 78/100 and 79/100. The specified trace reaches Vth
    exactly at index 80 and, the comparison being strict, keeps it: the
    reset to 0 that the scenario expects at index 80 is the rounding of
    binary64. *)
Remark scenario_samples_79_and_80_exact :
  exists tr x79 x80 s80,
    simulate scenario_prefix_Q = Ok tr /\
    tr !! 79%nat = Some x79 /\ (x79 == 78 # 100)%Q /\
    tr !! 80%nat = Some x80 /\ (x80 == 79 # 100)%Q /\
    spec_trace scenario_prefix_Q !! 80%nat = Some s80 /\
    (s80 == Vth scenario_prefix_Q)%Q.
Proof.
  do 4 eexists. split; [vm_compute; reflexivity|].
  split; [vm_compute; reflexivity|]. split; [reflexivity|].
  split; [vm_compute; reflexivity|]. split; [reflexivity|].
  split; [vm_compute; reflexivity | reflexivity].
Qed.

(** C4: linear growth fails at index 1. With I = 1 > 0, C = 1 > 0,
    dt = 1/100, V0 = 1/5, Vth = 1 and N = 50 no candidate exceeds Vth, yet
    trace[1] is 0 and not V0 + 1 * dt * (I / C) = 21/100. *)
Theorem linear_growth_broken_at_index_1 :
  (0 < I short_run_Q)%Q /\
  (0 < C short_run_Q)%Q /\
  exists tr,
    simulate short_run_Q = Ok tr /\
    (forall k x, tr !! k = Some x ->
                 (candidate short_run_Q x <= Vth short_run_Q)%Q) /\
    tr !! 1%nat = Some 0%Q /\
    (V0 short_run_Q + 1 * dt short_run_Q * (I short_run_Q / C short_run_Q)
     == 21 # 100)%Q /\
    ~ (0 == V0 short_run_Q
            + 1 * dt short_run_Q * (I short_run_Q / C short_run_Q))%Q.
Proof.
  split; [reflexivity|]. split; [reflexivity|].
  eexists. split; [vm_compute; reflexivity|].
  split; [|split; [reflexivity | split; [reflexivity | discriminate]]].
  intros k x Hx. apply list_elem_of_lookup_2, list_elem_of_In in Hx.
  apply Qle_bool_iff. revert x Hx. apply forallb_forall.
  vm_compute. reflexivity.
Qed.




(** C3, counterexample: with I = 0, C = 1, N = 5, V0 = 0, Vth = -1 and
    Vreset = -5 the voltage 0 is above the threshold, so the loop resets
    it: trace[2] is -5 and not V0. *)
Lemma no_current_trace_not_constant :
  (I no_current_Q == 0)%Q /\
  (0 < C no_current_Q)%Q /\
  (1 <= N no_current_Q)%Z /\
  exists tr x,
    simulate no_current_Q = Ok tr /\
    tr !! 2%nat = Some x /\
    ~ (x == V0 no_current_Q)%Q.
Proof.
  split; [reflexivity|]. split; [reflexivity|]. split; [discriminate|].
  eexists. eexists. split; [vm_compute; reflexivity|].
  split; [reflexivity | discriminate].
Qed.

(** ** The theorems at concrete inputs *)

Lemma coarse_run : simulate coarse_Q = Ok coarse_trace.
Proof. reflexivity. Qed.

Lemma trace_length_and_initial_value_witness :
  (0 < C coarse_Q)%Q /\
  (1 <= N coarse_Q)%Z /\
  exists tr,
    simulate coarse_Q = Ok tr /\
    Z.of_nat (length tr) = N coarse_Q /\
    tr !! 0%nat = Some (V0 coarse_Q).
Proof.
  assert (HC : (0 < C coarse_Q)%Q) by reflexivity.
  assert (HN : (1 <= N coarse_Q)%Z) by (simpl; lia).
  exact (conj HC (conj HN (trace_length_and_initial_value coarse_Q HC HN))).
Defined.

Lemma reset_comparison_is_strict_witness :
  simulate coarse_Q = Ok coarse_trace /\
  (1 <= 2)%nat /\
  (Z.of_nat 2 <= N coarse_Q - 2)%Z /\
  exists x,
    coarse_trace !! 2%nat = Some x /\
    ((candidate coarse_Q x == Vth coarse_Q)%Q ->
     coarse_trace !! (2 + 1)%nat = Some (candidate coarse_Q x)) /\
    ((Vth coarse_Q < candidate coarse_Q x)%Q ->
     coarse_trace !! (2 + 1)%nat = Some (Vreset coarse_Q)).
Proof.
  assert (Hk : (1 <= 2)%nat) by lia.
  assert (HkN : (Z.of_nat 2 <= N coarse_Q - 2)%Z) by (simpl; lia).
  exact (conj coarse_run (conj Hk (conj HkN
           (reset_comparison_is_strict coarse_Q coarse_trace 2
              coarse_run Hk HkN)))).
Defined.

Lemma no_current_steps_hold_witness :
  (I no_current_Q == 0)%Q /\
  (0 < C no_current_Q)%Q /\
  (1 <= N no_current_Q)%Z /\
  exists tr,
    simulate no_current_Q = Ok tr /\
    tr !! 0%nat = Some (V0 no_current_Q) /\
    forall k x y,
      (1 <= k)%nat ->
      tr !! k = Some x ->
      tr !! (k + 1)%nat = Some y ->
      ((x <= Vth no_current_Q)%Q -> (y == x)%Q) /\
      ((Vth no_current_Q < x)%Q -> y = Vreset no_current_Q).
Proof.
  assert (HI : (I no_current_Q == 0)%Q) by reflexivity.
  assert (HC : (0 < C no_current_Q)%Q) by reflexivity.
  assert (HN : (1 <= N no_current_Q)%Z) by (simpl; lia).
  exact (conj HI (conj HC (conj HN
           (no_current_steps_hold no_current_Q HI HC HN)))).
Defined.

Lemma run_deterministic_witness :
  run coarse_Q (Ok coarse_trace) /\
  run coarse_Q (simulate coarse_Q) /\
  Ok coarse_trace = simulate coarse_Q.
Proof.
  assert (H1 : run coarse_Q (Ok coarse_trace)).
  { apply run_loop; [simpl; lia|].
    change (range 1 (N coarse_Q - 1)) with [1; 2; 3; 4]%nat.
    do 4 (eapply loop_next; [body_rule|]).
    apply loop_done. }
  assert (H2 := run_simulate coarse_Q).
  exact (conj H1 (conj H2
           (run_deterministic coarse_Q coarse_Q _ _ eq_refl H1 H2))).
Defined.

Lemma index_1_never_assigned_witness :
  simulate coarse_Q = Ok coarse_trace /\
  (2 <= N coarse_Q)%Z /\
  coarse_trace !! 1%nat = Some 0%Q /\
  forall V V' : list Q,
    for_each coarse_Q (range 1 (N coarse_Q - 1)) V = Ok V' ->
    length V' = length V /\
    V' !! 0%nat = V !! 0%nat /\ V' !! 1%nat = V !! 1%nat /\
    forall j, (Z.of_nat j < 2 \/ N coarse_Q <= Z.of_nat j)%Z ->
              V' !! j = V !! j.
Proof.
  assert (HN : (2 <= N coarse_Q)%Z) by (simpl; lia).
  exact (conj coarse_run (conj HN
           (index_1_never_assigned coarse_Q coarse_trace coarse_run HN))).
Defined.

(** ** Beyond the claims: version 1, the Part 4 cell and the time axis *)

Section OtherCellsFacts.
Context {A : Type} `{PyFloat A}.
Implicit Types (cfg : SimulationConfig A) (V tr : list A) (v x : A).
Implicit Types (i j k m n : nat).

Lemma length_ramp cfg n v : length (ramp cfg n v) = n.
Proof. revert v; induction n as [|n IH]; intros v; simpl; [done | by rewrite IH]. Qed.

Lemma ramp_lookup_succ cfg n v i x :
  (i < n)%nat ->
  (v :: ramp cfg n v) !! i = Some x ->
  (v :: ramp cfg n v) !! S i = Some (candidate cfg x).
Proof.
  revert v i. induction n as [|n IH]; intros v i Hi Hx; [lia|].
  destruct i as [|i]; simpl in *.
  - by injection Hx as <-.
  - apply (IH (candidate cfg v) i); [lia | exact Hx].
Qed.

Lemma body_v1_ok cfg V k vk :
  V !! k = Some vk ->
  is_zero (C cfg) = false ->
  (k + 1 < length V)%nat ->
  body_v1 cfg V k = Ok (<[k + 1 := candidate cfg vk]> V).
Proof.
  intros Hk HC Hlen. unfold body_v1, truediv, candidate.
  apply getitem_ok in Hk. rewrite Hk, HC. simpl.
  by rewrite setitem_ok.
Qed.

Lemma body_v1_zero_division cfg V k vk :
  V !! k = Some vk ->
  is_zero (C cfg) = true ->
  body_v1 cfg V k = Raise ZeroDivisionError.
Proof.
  intros Hk HC. unfold body_v1, truediv.
  apply getitem_ok in Hk. by rewrite Hk, HC.
Qed.

Lemma for_each_v1_fill cfg j : forall pre v rest,
  is_zero (C cfg) = false ->
  (j <= length rest)%nat ->
  for_each_v1 cfg (seq (length pre) j) (pre ++ v :: rest)
  = Ok (pre ++ v :: ramp cfg j v ++ drop j rest).
Proof.
  induction j as [|j IH]; intros pre v rest HC Hj.
  - simpl. by rewrite drop_0.
  - destruct rest as [|r rest]; [simpl in Hj; lia|].
    cbn [seq for_each_v1].
    rewrite (body_v1_ok cfg _ _ v).
    + cbn [bind].
      replace (<[length pre + 1 := candidate cfg v]> (pre ++ v :: r :: rest))
        with ((pre ++ [v]) ++ candidate cfg v :: rest).
      2:{ rewrite <- (assoc_L (++)). simpl. by rewrite insert_app_r. }
      replace (S (length pre)) with (length (pre ++ [v]))
        by (rewrite length_app; simpl; lia).
      rewrite IH by (simpl in Hj; done || lia).
      by rewrite <- (assoc_L (++)).
    + by apply list_lookup_middle.
    + done.
    + rewrite length_app. simpl. lia.
Qed.

Lemma simulate_v1_unfold cfg :
  (1 <= N cfg)%Z ->
  simulate_v1 cfg
  = for_each_v1 cfg (seq 1 (Z.to_nat (N cfg) - 2))
      (V0 cfg :: replicate (Z.to_nat (N cfg) - 1) zero).
Proof.
  intros HN. unfold simulate_v1, zeros, range.
  rewrite (proj2 (Z.ltb_ge _ _)) by lia. cbn [bind].
  replace (Z.to_nat (N cfg - 1 - 1)) with (Z.to_nat (N cfg) - 2)%nat by lia.
  destruct (Z.to_nat (N cfg)) as [|n] eqn:Hn; [lia|].
  simpl. by rewrite Nat.sub_0_r.
Qed.

(** The four ways a run of version 1 can end. *)
Lemma simulate_v1_cases cfg :
  ((N cfg < 0)%Z /\ simulate_v1 cfg = Raise ValueError) \/
  (N cfg = 0%Z /\ simulate_v1 cfg = Raise IndexError) \/
  ((3 <= N cfg)%Z /\ is_zero (C cfg) = true /\
   simulate_v1 cfg = Raise ZeroDivisionError) \/
  ((1 <= N cfg)%Z /\ ((N cfg <= 2)%Z \/ is_zero (C cfg) = false) /\
   simulate_v1 cfg = Ok (trace_v1 cfg)).
Proof.
  destruct (Z.lt_trichotomy (N cfg) 0) as [HN|[HN|HN]].
  - left. split; [done|]. unfold simulate_v1, zeros.
    by rewrite (proj2 (Z.ltb_lt _ _) HN).
  - right; left. split; [done|]. unfold simulate_v1, zeros. by rewrite HN.
  - right; right. rewrite simulate_v1_unfold by lia. unfold trace_v1.
    destruct (Z.to_nat (N cfg)) as [|[|[|n]]] eqn:Hn; [lia|..].
    + right. split; [lia | split; [left; lia | done]].
    + right. split; [lia | split; [left; lia | done]].
    + destruct (is_zero (C cfg)) eqn:HC.
      * left. split; [lia | split; [done|]].
        cbn [Nat.sub seq for_each_v1 replicate].
        by rewrite (body_v1_zero_division cfg _ 1 zero).
      * right. split; [lia | split; [by right|]].
        cbn [Nat.sub].
        refine (eq_trans
                  (for_each_v1_fill cfg (S n) [V0 cfg] zero
                     (replicate (S n) zero) HC _) _).
        -- by rewrite length_replicate.
        -- rewrite drop_ge by (by rewrite length_replicate).
           rewrite app_nil_r. simpl app.
           rewrite take_ge; [done|].
           simpl. rewrite length_ramp. lia.
Qed.

Lemma length_trace_v1 cfg : length (trace_v1 cfg) = Z.to_nat (N cfg).
Proof.
  unfold trace_v1. rewrite length_take. simpl.
  rewrite length_ramp. lia.
Qed.

Lemma trace_v1_lookup_succ cfg k x :
  (1 <= k)%nat ->
  trace_v1 cfg !! k = Some x ->
  (k + 1 < Z.to_nat (N cfg))%nat ->
  trace_v1 cfg !! (k + 1)%nat = Some (candidate cfg x).
Proof.
  intros Hk Hx HkN. unfold trace_v1 in *.
  rewrite lookup_take_lt in Hx by lia. rewrite lookup_take_lt by lia.
  destruct k as [|k]; [lia|]. simpl in Hx.
  replace (S k + 1)%nat with (S (S k)) by lia.
  change ((zero :: ramp cfg (Z.to_nat (N cfg) - 2) zero) !! S k
          = Some (candidate cfg x)).
  apply ramp_lookup_succ; [lia | exact Hx].
Qed.

(** As long as no candidate is above the threshold, the recurrence of
    version 2 is the ramp of version 1. *)
Lemma recurrence_ramp cfg n : forall v,
  (forall i x, (i < n)%nat -> (v :: ramp cfg n v) !! i = Some x ->
               gt (candidate cfg x) (Vth cfg) = false) ->
  recurrence cfg n v = ramp cfg n v.
Proof.
  induction n as [|n IH]; intros v Hno; [done|].
  assert (Hv : next cfg v = candidate cfg v).
  { unfold next. by rewrite (Hno 0%nat v) by (done || lia). }
  simpl. rewrite Hv. f_equal. apply IH.
  intros i x Hi Hx. apply (Hno (S i) x); [lia | exact Hx].
Qed.

(** What a loop that returns has done: the inverse of [for_each_fill]. *)
Lemma for_each_fill_inv cfg j : forall pre v rest V',
  for_each cfg (seq (length pre) j) (pre ++ v :: rest) = Ok V' ->
  (j <= length rest)%nat /\
  (j = 0%nat \/ is_zero (C cfg) = false) /\
  V' = pre ++ v :: recurrence cfg j v ++ drop j rest.
Proof.
  induction j as [|j IH]; intros pre v rest V' Hrun.
  - simpl in Hrun. injection Hrun as <-.
    split; [lia|]. split; [by left|]. simpl. by rewrite drop_0.
  - cbn [seq for_each] in Hrun.
    apply bind_ok in Hrun as (V1 & Hb & Hrun).
    apply body_inv in Hb as (vk & Hk & HC & Hlen & ->).
    rewrite list_lookup_middle in Hk by done. injection Hk as <-.
    destruct rest as [|r rest].
    { rewrite length_app in Hlen. simpl in Hlen. lia. }
    replace (<[length pre + 1 := next cfg v]> (pre ++ v :: r :: rest))
      with ((pre ++ [v]) ++ next cfg v :: rest) in Hrun.
    2:{ rewrite <- (assoc_L (++)). simpl. by rewrite insert_app_r. }
    replace (S (length pre)) with (length (pre ++ [v])) in Hrun
      by (rewrite length_app; simpl; lia).
    apply IH in Hrun as (Hj & _ & ->).
    split; [simpl; lia|]. split; [by right|].
    by rewrite <- (assoc_L (++)).
Qed.

(** The loop of Part 4 needs two cells to start from, unless it has no
    iteration to make. *)
Lemma threshold_loop_inv cfg V V' :
  threshold_loop cfg V = Ok V' ->
  V' = V \/
  exists a b rest,
    V = a :: b :: rest /\
    (Z.to_nat (N cfg) - 2 <= length rest)%nat /\
    is_zero (C cfg) = false /\
    V' = a :: b :: recurrence cfg (Z.to_nat (N cfg) - 2) b
           ++ drop (Z.to_nat (N cfg) - 2) rest.
Proof.
  unfold threshold_loop, range. intros Hrun.
  replace (Z.to_nat (N cfg - 1 - 1)) with (Z.to_nat (N cfg) - 2)%nat in Hrun
    by lia.
  change (Z.to_nat 1) with 1%nat in Hrun.
  destruct (Z.to_nat (N cfg) - 2)%nat as [|j] eqn:Hj.
  { left. simpl in Hrun. by injection Hrun. }
  right.
  assert (Hrun0 := Hrun). cbn [seq for_each] in Hrun.
  apply bind_ok in Hrun as (V1 & Hb & _).
  apply body_inv in Hb as (b & Hb & _ & Hlen & _).
  destruct V as [|a [|b' rest]]; try (simpl in Hlen; lia).
  simpl in Hb. injection Hb as ->.
  apply (for_each_fill_inv cfg (S j) [a] b rest V') in Hrun0
    as (Hle & [?|HC] & ->); [lia|].
  by exists a, b, rest.
Qed.

(** X1: both versions of the cell fail on the same configurations and
    with the same exception: adding the threshold adds no failure and
    removes none. *)
Theorem versions_fail_alike cfg (e : exn) :
  simulate_v1 cfg = Raise e <-> simulate cfg = Raise e.
Proof.
  destruct (simulate_v1_cases cfg)
    as [[HN ->]|[[HN ->]|[(HN & HC & ->)|(HN & HC & ->)]]].
  - by rewrite simulate_value_error.
  - by rewrite simulate_index_error.
  - by rewrite simulate_zero_division.
  - by rewrite simulate_ok.
Qed.

(** X2: while the voltage stays at or below the threshold the threshold
    changes nothing. If no candidate computed along the trace of version 1
    is above Vth, version 2 returns that very trace. *)
Theorem below_threshold_same_as_v1 cfg tr1 :
  simulate_v1 cfg = Ok tr1 ->
  (forall k x, (1 <= k)%nat -> (Z.of_nat k <= N cfg - 2)%Z ->
               tr1 !! k = Some x ->
               gt (candidate cfg x) (Vth cfg) = false) ->
  simulate cfg = Ok tr1.
Proof.
  intros Hv1 Hno.
  destruct (simulate_v1_cases cfg)
    as [[HN Heq]|[[HN Heq]|[(HN & HC & Heq)|(HN & HC & Heq)]]];
    rewrite Heq in Hv1; try discriminate.
  injection Hv1 as <-. rewrite simulate_ok by done. f_equal.
  unfold code_trace, trace_v1. do 3 f_equal.
  apply recurrence_ramp. intros i x Hi Hx.
  apply (Hno (S i) x); [lia | lia |].
  unfold trace_v1. rewrite lookup_take_lt by lia. exact Hx.
Qed.

(** X3: the Part 4 cell run after version 1. Executing the threshold loop
    on the array version 1 has left gives what version 2 gives from a
    fresh array: the loop overwrites every cell it later reads. *)
Theorem threshold_loop_after_v1 cfg tr1 :
  simulate_v1 cfg = Ok tr1 ->
  threshold_loop cfg tr1 = simulate cfg.
Proof.
  intros Hv1.
  destruct (simulate_v1_cases cfg)
    as [[HN Heq]|[[HN Heq]|[(HN & HC & Heq)|(HN & HC & Heq)]]];
    rewrite Heq in Hv1; try discriminate.
  injection Hv1 as <-. rewrite simulate_ok by done.
  unfold threshold_loop, range, trace_v1, code_trace.
  replace (Z.to_nat (N cfg - 1 - 1)) with (Z.to_nat (N cfg) - 2)%nat by lia.
  change (Z.to_nat 1) with 1%nat.
  destruct (Z.to_nat (N cfg)) as [|[|[|n]]] eqn:Hn; [lia|done|done|].
  assert (HC' : is_zero (C cfg) = false) by (destruct HC; [lia|done]).
  cbn [Nat.sub].
  rewrite !take_ge
    by (simpl; rewrite ?length_ramp, ?length_recurrence; lia).
  refine (eq_trans
            (for_each_fill cfg (S n) [V0 cfg] zero (ramp cfg (S n) zero) HC' _)
            _).
  - by rewrite length_ramp.
  - rewrite drop_ge by (by rewrite length_ramp).
    by rewrite app_nil_r.
Qed.

(** X4: executing the Part 4 cell a second time changes nothing. The
    loop's result depends on the array only through its first two cells
    (and what lies beyond index N-1), and the loop leaves those alone. *)
Theorem threshold_loop_idempotent cfg V V' :
  threshold_loop cfg V = Ok V' ->
  threshold_loop cfg V' = Ok V'.
Proof.
  intros Hrun.
  destruct (threshold_loop_inv cfg V V' Hrun)
    as [->|(a & b & rest & -> & Hle & HC & ->)]; [done|].
  unfold threshold_loop, range.
  replace (Z.to_nat (N cfg - 1 - 1)) with (Z.to_nat (N cfg) - 2)%nat by lia.
  change (Z.to_nat 1) with 1%nat.
  set (j := (Z.to_nat (N cfg) - 2)%nat) in *.
  refine (eq_trans
            (for_each_fill cfg j [a] b
               (recurrence cfg j b ++ drop j rest) HC _) _).
  - rewrite length_app, length_recurrence. lia.
  - rewrite drop_app_length'; [done | by rewrite length_recurrence].
Qed.

(** X5: the model keeps no state but the current voltage. Two samples of
    a trace (from index 1 on) that hold the same voltage are followed by
    the same voltages: after a repeated value the trace is periodic. *)
Theorem equal_voltage_equal_future cfg tr i j m x :
  simulate cfg = Ok tr ->
  (1 <= i)%nat -> (1 <= j)%nat ->
  tr !! i = Some x -> tr !! j = Some x ->
  (Z.of_nat (i + m) < N cfg)%Z -> (Z.of_nat (j + m) < N cfg)%Z ->
  tr !! (i + m)%nat = tr !! (j + m)%nat.
Proof.
  intros Hrun Hi Hj Hxi Hxj. apply simulate_inv in Hrun as (_ & _ & ->).
  induction m as [|m IH]; intros Him Hjm.
  - by rewrite !Nat.add_0_r, Hxi, Hxj.
  - assert (Heq : code_trace cfg !! (i + m)%nat = code_trace cfg !! (j + m)%nat)
      by (apply IH; lia).
    destruct (lookup_lt_is_Some_2 (code_trace cfg) (i + m)) as [y Hy].
    { rewrite length_code_trace. lia. }
    assert (Hy' := Hy). rewrite Heq in Hy'.
    replace (i + S m)%nat with (i + m + 1)%nat by lia.
    replace (j + S m)%nat with (j + m + 1)%nat by lia.
    rewrite (code_trace_lookup_succ cfg (i + m) y) by (done || lia).
    by rewrite (code_trace_lookup_succ cfg (j + m) y) by (done || lia).
Qed.

(** *** Version 1 and version 2, sample by sample *)

Lemma trace_v1_lookup_low cfg i :
  (i < 2)%nat -> trace_v1 cfg !! i = code_trace cfg !! i.
Proof.
  intros Hi. unfold trace_v1, code_trace.
  destruct (decide (i < Z.to_nat (N cfg))%nat) as [Hlt|Hge].
  - rewrite !lookup_take_lt by done. by destruct i as [|[|i]]; [| |lia].
  - by rewrite !lookup_take_ge by lia.
Qed.

(** The two traces agree up to the first sample whose candidate is above
    the threshold, that sample included. *)
Lemma traces_agree_prefix cfg k :
  (forall j x, (1 <= j)%nat -> (j < k)%nat -> trace_v1 cfg !! j = Some x ->
               gt (candidate cfg x) (Vth cfg) = false) ->
  forall i, (i <= k)%nat -> code_trace cfg !! i = trace_v1 cfg !! i.
Proof.
  intros Hno i. induction i as [|i IH]; intros Hi.
  - symmetry. apply trace_v1_lookup_low. lia.
  - destruct i as [|i]; [symmetry; apply trace_v1_lookup_low; lia|].
    specialize (IH ltac:(lia)).
    destruct (decide (S (S i) < Z.to_nat (N cfg))%nat) as [Hlt|Hge].
    + destruct (lookup_lt_is_Some_2 (trace_v1 cfg) (S i)) as [x Hx].
      { rewrite length_trace_v1. lia. }
      rewrite Hx in IH.
      replace (S (S i)) with (S i + 1)%nat by lia.
      rewrite (code_trace_lookup_succ cfg (S i) x) by (done || lia).
      rewrite (trace_v1_lookup_succ cfg (S i) x) by (done || lia).
      unfold next. by rewrite (Hno (S i) x) by (done || lia).
    + rewrite !lookup_ge_None_2;
        [done | rewrite length_trace_v1; lia | rewrite length_code_trace; lia].
Qed.

Lemma ramp_with_V0 cfg v n z : ramp (with_V0 cfg v) n z = ramp cfg n z.
Proof.
  revert z. induction n as [|n IH]; intros z; [done|].
  simpl. rewrite IH. done.
Qed.

(** X6: version 1, for any arithmetic. For a nonzero C and N >= 1 the
    cell returns N samples: sample 0 is V0, sample 1 is the 0 of the
    allocation, and every later sample is the one before it plus
    dt*(I/C). The running sum starts from index 1, so no sample after
    index 0 depends on V0. *)
Theorem v1_running_sum cfg :
  is_zero (C cfg) = false ->
  (1 <= N cfg)%Z ->
  exists tr,
    simulate_v1 cfg = Ok tr /\
    Z.of_nat (length tr) = N cfg /\
    tr !! 0%nat = Some (V0 cfg) /\
    ((2 <= N cfg)%Z -> tr !! 1%nat = Some zero) /\
    (forall k x,
       (1 <= k)%nat -> (Z.of_nat k <= N cfg - 2)%Z -> tr !! k = Some x ->
       tr !! (k + 1)%nat
       = Some (add x (mul (dt cfg) (div (I cfg) (C cfg))))) /\
    (forall v, exists tr',
       simulate_v1 (with_V0 cfg v) = Ok tr' /\
       forall k, (1 <= k)%nat -> tr' !! k = tr !! k).
Proof.
  intros HC HN.
  assert (Hrun : forall c, N c = N cfg -> C c = C cfg ->
                           simulate_v1 c = Ok (trace_v1 c)).
  { intros c HNc HCc.
    destruct (simulate_v1_cases c)
      as [[? _]|[[? _]|[(_ & HC' & _)|(_ & _ & Heq)]]];
      [lia | lia | congruence | done]. }
  exists (trace_v1 cfg). split; [by apply Hrun|].
  split; [rewrite length_trace_v1; lia|].
  split; [rewrite trace_v1_lookup_low by lia; by apply code_trace_lookup_0|].
  split; [intros HN2; rewrite trace_v1_lookup_low by lia;
          by apply code_trace_lookup_1|].
  split.
  - intros k x Hk HkN Hx. apply trace_v1_lookup_succ; (done || lia).
  - intros v. exists (trace_v1 (with_V0 cfg v)).
    split; [by apply Hrun|].
    intros k Hk. unfold trace_v1. cbn [N V0 with_V0].
    rewrite ramp_with_V0.
    destruct (decide (k < Z.to_nat (N cfg))%nat) as [Hlt|Hge].
    + rewrite !lookup_take_lt by done. by destruct k; [lia|].
    + by rewrite !lookup_take_ge by lia.
Qed.

(** X7: version 2 before its first spike, for any arithmetic. The two
    versions hold the same samples up to and including index k when no
    candidate that version 1 computes before step k is above Vth. *)
Theorem versions_agree_before_first_spike cfg tr1 tr2 k i :
  simulate_v1 cfg = Ok tr1 ->
  simulate cfg = Ok tr2 ->
  (forall j x, (1 <= j)%nat -> (j < k)%nat -> tr1 !! j = Some x ->
               gt (candidate cfg x) (Vth cfg) = false) ->
  (i <= k)%nat ->
  tr2 !! i = tr1 !! i.
Proof.
  intros Hv1 Hv2 Hno Hi.
  apply simulate_inv in Hv2 as (_ & _ & ->).
  destruct (simulate_v1_cases cfg)
    as [[HN Heq]|[[HN Heq]|[(HN & HC & Heq)|(HN & HC & Heq)]]];
    rewrite Heq in Hv1; try discriminate.
  injection Hv1 as <-. by apply (traces_agree_prefix cfg k).
Qed.

(** X8: the first spike, for any arithmetic. At the first loop step k
    at which the candidate version 1 computes is above Vth, version 2
    stores Vreset: sample k+1 of version 2 is Vreset. *)
Theorem first_spike_where_v1_crosses cfg tr1 tr2 k x :
  simulate_v1 cfg = Ok tr1 ->
  simulate cfg = Ok tr2 ->
  (1 <= k)%nat ->
  (Z.of_nat k <= N cfg - 2)%Z ->
  (forall j y, (1 <= j)%nat -> (j < k)%nat -> tr1 !! j = Some y ->
               gt (candidate cfg y) (Vth cfg) = false) ->
  tr1 !! k = Some x ->
  gt (candidate cfg x) (Vth cfg) = true ->
  tr2 !! (k + 1)%nat = Some (Vreset cfg).
Proof.
  intros Hv1 Hv2 Hk HkN Hno Hx Hgt.
  apply simulate_inv in Hv2 as (_ & _ & ->).
  destruct (simulate_v1_cases cfg)
    as [[HN Heq]|[[HN Heq]|[(HN & HC & Heq)|(HN & HC & Heq)]]];
    rewrite Heq in Hv1; try discriminate.
  injection Hv1 as <-.
  rewrite <- (traces_agree_prefix cfg k Hno k) in Hx by lia.
  rewrite (code_trace_lookup_succ cfg k x) by (done || lia).
  unfold next. by rewrite Hgt.
Qed.

End OtherCellsFacts.

(** *** The time axis *)

Section TimeAxis.
Context {A : Type} `{PyFloat A} `{PyFromInt A}.
Implicit Types (cfg : SimulationConfig A) (V t : list A).

Lemma arange_lookup lo hi k :
  arange lo hi !! k =
  if decide (k < Z.to_nat (hi - lo))%nat
  then Some (lo + Z.of_nat k)%Z else None.
Proof.
  unfold arange.
  change (map ?f ?l) with (f <$> l).
  rewrite list_lookup_fmap.
  destruct (decide _) as [Hk|Hk].
  - by rewrite lookup_seq_lt.
  - by rewrite lookup_seq_ge by lia.
Qed.

Lemma length_time_axis V (d : A) : length (time_axis V d) = length V.
Proof.
  unfold time_axis, arange. rewrite !length_map, length_seq. lia.
Qed.

Lemma time_axis_lookup V (d : A) k (tk : A) :
  time_axis V d !! k = Some tk ->
  (k < length V)%nat /\ tk = mul (from_int (Z.of_nat k)) d.
Proof.
  unfold time_axis. change (map ?f ?l) with (f <$> l).
  rewrite list_lookup_fmap, arange_lookup.
  destruct (decide _) as [Hk|Hk]; [|done].
  simpl. intros [= <-]. split; [lia | done].
Qed.

(** X11: the two arrays the cell hands to the plot, for any arithmetic.
    For a nonzero C and N >= 1 the cell returns a time axis and a trace of
    the same length N, and entry k of the axis is k, as a number, times
    dt. *)
Theorem cell_v2_axes cfg :
  is_zero (C cfg) = false ->
  (1 <= N cfg)%Z ->
  exists t V,
    cell_v2 cfg = Ok (t, V) /\
    simulate cfg = Ok V /\
    length t = length V /\
    Z.of_nat (length t) = N cfg /\
    (forall k tk, t !! k = Some tk ->
                  tk = mul (from_int (Z.of_nat k)) (dt cfg)).
Proof.
  intros HC HN.
  assert (Hrun : simulate cfg = Ok (code_trace cfg)).
  { apply simulate_ok; [done | by right]. }
  exists (time_axis (code_trace cfg) (dt cfg)), (code_trace cfg).
  split; [unfold cell_v2; by rewrite Hrun|]. split; [done|].
  split; [apply length_time_axis|].
  split; [rewrite length_time_axis, length_code_trace; lia|].
  intros k tk Htk. by apply time_axis_lookup in Htk as [_ ->].
Qed.

End TimeAxis.

(** ** Beyond the claims, in exact arithmetic *)

Section OtherCellsRationals.
Implicit Types (cfg : SimulationConfig Q) (tr : list Q) (x y v : Q).

Lemma Q_candidate_dV cfg v : (candidate cfg v == v + dV cfg)%Q.
Proof. reflexivity. Qed.

(** A sample that holds [Vreset] is followed by [Vreset] when one step
    from there is already above the threshold. *)
Lemma Q_code_trace_stuck cfg k : forall m y,
  (Vth cfg < Vreset cfg + dV cfg)%Q ->
  (1 <= k)%nat ->
  code_trace cfg !! k = Some (Vreset cfg) ->
  code_trace cfg !! (k + m)%nat = Some y ->
  y = Vreset cfg.
Proof.
  intros m y Hlt Hk Hx. revert y. induction m as [|m IH]; intros y Hy.
  - rewrite Nat.add_0_r, Hx in Hy. by injection Hy.
  - assert (HkN : (k + m + 1 < Z.to_nat (N cfg))%nat).
    { apply lookup_lt_Some in Hy. rewrite length_code_trace in Hy. lia. }
    destruct (lookup_lt_is_Some_2 (code_trace cfg) (k + m)) as [z Hz].
    { rewrite length_code_trace. lia. }
    assert (z = Vreset cfg) as -> by (by apply IH).
    replace (k + S m)%nat with (k + m + 1)%nat in Hy by lia.
    rewrite (code_trace_lookup_succ cfg (k + m) (Vreset cfg)) in Hy
      by (done || lia).
    injection Hy as <-. apply Q_next_reset. by rewrite Q_candidate_dV.
Qed.

(** X9: a reset that cannot hold. When one step up from the reset voltage
    is already above the threshold (Vreset + dt*(I/C) > Vth, as with
    Vreset > Vth and a nonnegative step), the trace never leaves Vreset
    once a sample k >= 1 holds it. *)
Theorem reset_above_threshold_sticks cfg tr k m y :
  simulate cfg = Ok tr ->
  (Vth cfg < Vreset cfg + dV cfg)%Q ->
  (1 <= k)%nat ->
  (k <= m)%nat ->
  tr !! k = Some (Vreset cfg) ->
  tr !! m = Some y ->
  y = Vreset cfg.
Proof.
  intros Hrun Hlt Hk Hkm Hx Hy. apply simulate_inv in Hrun as (_ & _ & ->).
  replace m with (k + (m - k))%nat in Hy by lia.
  by apply (Q_code_trace_stuck cfg k (m - k) y).
Qed.

(** X10: with a nonnegative step dt*(I/C) no sample from index 1 on is
    below min(0, Vreset): the voltage only climbs from the 0 of index 1 or
    from a reset. *)
Theorem voltage_bounded_below cfg tr k x :
  simulate cfg = Ok tr ->
  (0 <= dV cfg)%Q ->
  (1 <= k)%nat ->
  tr !! k = Some x ->
  (Qmin 0 (Vreset cfg) <= x)%Q.
Proof.
  intros Hrun HdV Hk. apply simulate_inv in Hrun as (_ & _ & ->).
  revert x. induction k as [|k IH]; intros x Hx; [lia|].
  assert (HkN : (S k < Z.to_nat (N cfg))%nat).
  { apply lookup_lt_Some in Hx. by rewrite length_code_trace in Hx. }
  destruct k as [|k].
  - rewrite code_trace_lookup_1 in Hx by lia. injection Hx as <-.
    apply Q.le_min_l.
  - destruct (lookup_lt_is_Some_2 (code_trace cfg) (S k)) as [y Hy].
    { rewrite length_code_trace. lia. }
    replace (S (S k)) with (S k + 1)%nat in Hx by lia.
    rewrite (code_trace_lookup_succ cfg (S k) y) in Hx by (done || lia).
    injection Hx as <-.
    assert (Hy' : (Qmin 0 (Vreset cfg) <= y)%Q) by (apply IH; [lia | done]).
    unfold next. destruct (gt _ _).
    + apply Q.le_min_r.
    + rewrite Q_candidate_dV.
      apply Qle_trans with y; [done|].
      rewrite <- (Qplus_0_r y) at 1. by apply Qplus_le_r.
Qed.

End OtherCellsRationals.

(** ** Beyond the claims: the autocovariance supplement *)

Section AutocovarianceFacts.
Implicit Types (a v x : list Q) (f g : Z -> Q) (k lo mid hi : Z).

Lemma length_arange lo hi : length (arange lo hi) = Z.to_nat (hi - lo).
Proof. unfold arange. by rewrite length_map, length_seq. Qed.

Lemma arange_nil lo hi : (hi <= lo)%Z -> arange lo hi = [].
Proof.
  intros Hle. unfold arange.
  by replace (Z.to_nat (hi - lo)) with 0%nat by lia.
Qed.

Lemma arange_cons lo hi :
  (lo < hi)%Z -> arange lo hi = lo :: arange (lo + 1) hi.
Proof.
  intros Hlt. unfold arange.
  replace (Z.to_nat (hi - lo)) with (S (Z.to_nat (hi - (lo + 1)))) by lia.
  cbn [seq map]. f_equal; [lia|].
  rewrite <- seq_shift, map_map. apply map_ext. intros i. lia.
Qed.

(** *** Sums over a range of integers *)

Lemma Qsum_arange_ext f g lo hi :
  (forall n, (lo <= n < hi)%Z -> (f n == g n)%Q) ->
  (Qsum (map f (arange lo hi)) == Qsum (map g (arange lo hi)))%Q.
Proof.
  remember (Z.to_nat (hi - lo)) as m eqn:Hm. revert lo Hm.
  induction m as [|m IH]; intros lo Hm Hfg.
  - by rewrite arange_nil by lia.
  - rewrite arange_cons by lia. simpl.
    rewrite (Hfg lo) by lia. apply Qplus_comp; [reflexivity|].
    apply IH; [lia|]. intros n Hn. apply Hfg. lia.
Qed.

Lemma Qsum_arange_zero f lo hi :
  (forall n, (lo <= n < hi)%Z -> (f n == 0)%Q) ->
  (Qsum (map f (arange lo hi)) == 0)%Q.
Proof.
  remember (Z.to_nat (hi - lo)) as m eqn:Hm. revert lo Hm.
  induction m as [|m IH]; intros lo Hm Hf.
  - by rewrite arange_nil by lia.
  - rewrite arange_cons by lia. simpl.
    rewrite (Hf lo) by lia. rewrite Qplus_0_l.
    apply IH; [lia|]. intros n Hn. apply Hf. lia.
Qed.

Lemma Qsum_arange_split f lo mid hi :
  (lo <= mid <= hi)%Z ->
  (Qsum (map f (arange lo hi))
   == Qsum (map f (arange lo mid)) + Qsum (map f (arange mid hi)))%Q.
Proof.
  remember (Z.to_nat (mid - lo)) as m eqn:Hm. revert lo Hm.
  induction m as [|m IH]; intros lo Hm Hle.
  - replace mid with lo by lia. rewrite (arange_nil lo lo) by lia.
    simpl. by rewrite Qplus_0_l.
  - rewrite (arange_cons lo hi), (arange_cons lo mid) by lia. simpl.
    rewrite (IH (lo + 1)%Z) by lia. by rewrite Qplus_assoc.
Qed.

Lemma Qsum_arange_shift f lo hi (s : Z) :
  (Qsum (map (fun n => f (n + s)%Z) (arange lo hi))
   == Qsum (map f (arange (lo + s) (hi + s))))%Q.
Proof.
  remember (Z.to_nat (hi - lo)) as m eqn:Hm. revert lo Hm.
  induction m as [|m IH]; intros lo Hm.
  - by rewrite !arange_nil by lia.
  - rewrite (arange_cons lo hi), (arange_cons (lo + s) (hi + s)) by lia.
    simpl. apply Qplus_comp; [reflexivity|].
    replace (lo + s + 1)%Z with (lo + 1 + s)%Z by lia.
    apply IH. lia.
Qed.

(** A sum only sees the part of its range where the summand can be
    nonzero. *)
Lemma Qsum_arange_support f lo hi (s e : Z) :
  (lo <= s)%Z -> (s <= e)%Z -> (e <= hi)%Z ->
  (forall n, (lo <= n < s)%Z \/ (e <= n < hi)%Z -> (f n == 0)%Q) ->
  (Qsum (map f (arange lo hi)) == Qsum (map f (arange s e)))%Q.
Proof.
  intros Hs Hse He Hzero.
  rewrite (Qsum_arange_split f lo s hi) by lia.
  rewrite (Qsum_arange_split f s e hi) by lia.
  rewrite (Qsum_arange_zero f lo s) by (intros n Hn; apply Hzero; lia).
  rewrite (Qsum_arange_zero f e hi) by (intros n Hn; apply Hzero; lia).
  ring.
Qed.

(** *** Reading the arrays *)

Lemma padded_outside a (i : Z) :
  (i < 0 \/ Z.of_nat (length a) <= i)%Z -> padded a i = 0%Q.
Proof.
  intros Hi. unfold padded. destruct (Z.ltb_spec i 0) as [|Hge]; [done|].
  rewrite lookup_ge_None_2 by lia. done.
Qed.

Lemma padded_lookup a (i : nat) (y : Q) :
  a !! i = Some y -> padded a (Z.of_nat i) = y.
Proof.
  intros Hy. unfold padded. destruct (Z.ltb_spec (Z.of_nat i) 0); [lia|].
  by rewrite Nat2Z.id, Hy.
Qed.

Lemma padded_cons (y : Q) a (i : Z) :
  (0 <= i)%Z -> padded (y :: a) (i + 1) = padded a i.
Proof.
  intros Hi. unfold padded.
  destruct (Z.ltb_spec (i + 1) 0), (Z.ltb_spec i 0); try lia.
  replace (Z.to_nat (i + 1)) with (S (Z.to_nat i)) by lia. done.
Qed.

(** A sum over the whole array, written over its indices. *)
Lemma Qsum_padded (h : Q -> Q) a :
  (Qsum (map (fun n => h (padded a n)) (arange 0 (Z.of_nat (length a))))
   == Qsum (map h a))%Q.
Proof.
  induction a as [|y a IH]; [done|].
  replace (Z.of_nat (length (y :: a))) with (Z.of_nat (length a) + 1)%Z
    by (cbn [length]; lia).
  rewrite arange_cons by lia.
  change (h y + Qsum (map (fun n => h (padded (y :: a) n))
                          (arange (0 + 1) (Z.of_nat (length a) + 1)))
          == h y + Qsum (map h a))%Q.
  apply Qplus_comp; [reflexivity|].
  eapply Qeq_trans; [|exact IH].
  eapply Qeq_trans.
  { apply Qeq_sym.
    apply (Qsum_arange_shift (fun n => h (padded (y :: a) n)) 0
             (Z.of_nat (length a)) 1). }
  apply Qsum_arange_ext. intros n Hn. by rewrite padded_cons by lia.
Qed.

(** *** The correlation of an array with itself *)

Lemma correlation_at_sym a k :
  (- Z.of_nat (length a) <= k <= Z.of_nat (length a))%Z ->
  (correlation_at a a k == correlation_at a a (- k))%Q.
Proof.
  intros Hk. unfold correlation_at.
  set (n := Z.of_nat (length a)) in *.
  set (g := fun m : Z => (padded a m * padded a (m - k))%Q).
  assert (Hleft : (Qsum (map (fun i => (padded a (i + k) * padded a i)%Q)
                             (arange 0 n))
                   == Qsum (map g (arange (Z.max 0 k) (Z.min n (n + k)))))%Q).
  { eapply Qeq_trans.
    { apply (Qsum_arange_ext _ (fun i => g (i + k)%Z)). intros i _.
      unfold g. by replace (i + k - k)%Z with i by lia. }
    eapply Qeq_trans; [apply (Qsum_arange_shift g 0 n k)|].
    apply Qsum_arange_support; try lia.
    intros m Hm. unfold g.
    rewrite (padded_outside a m) by (fold n; lia). ring. }
  assert (Hright : (Qsum (map (fun i => (padded a (i + - k) * padded a i)%Q)
                              (arange 0 n))
                    == Qsum (map g (arange (Z.max 0 k) (Z.min n (n + k)))))%Q).
  { eapply Qeq_trans.
    { apply (Qsum_arange_ext _ g). intros i _. unfold g.
      replace (i + - k)%Z with (i - k)%Z by lia. ring. }
    apply Qsum_arange_support; try lia.
    intros m Hm. unfold g.
    rewrite (padded_outside a (m - k)) by (fold n; lia). ring. }
  by rewrite Hleft, Hright.
Qed.

Lemma correlation_at_zero a :
  (correlation_at a a 0 == Qsum (map (fun y => y * y) a))%Q.
Proof.
  unfold correlation_at.
  eapply Qeq_trans; [|apply (Qsum_padded (fun y => y * y)%Q a)].
  apply Qsum_arange_ext. intros i _. by rewrite Z.add_0_r.
Qed.

Lemma correlation_at_last a :
  (1 <= Z.of_nat (length a))%Z ->
  (correlation_at a a (Z.of_nat (length a) - 1)
   == padded a (Z.of_nat (length a) - 1) * padded a 0)%Q.
Proof.
  intros Hn. unfold correlation_at.
  set (n := Z.of_nat (length a)) in *.
  eapply Qeq_trans.
  { apply (Qsum_arange_support _ 0 n 0 1); try lia.
    intros m Hm. rewrite (padded_outside a (m + (n - 1))) by (fold n; lia).
    ring. }
  rewrite arange_cons, arange_nil by lia. simpl.
  rewrite Qplus_0_r. by replace (0 + (n - 1))%Z with (n - 1)%Z by lia.
Qed.

Lemma Qsum_squares_nonneg (l : list Q) : (0 <= Qsum (map (fun y => y * y) l))%Q.
Proof.
  induction l as [|y l IH]; [done|]. simpl.
  rewrite <- (Qplus_0_r 0). apply Qplus_le_compat; [|done].
  nra.
Qed.

(** *** The cell of the supplement *)

Lemma length_centred x : length (centred x) = length x.
Proof. unfold centred. by rewrite length_map. Qed.

Lemma autocovariance_empty : autocovariance [] = Raise ValueError.
Proof. reflexivity. Qed.

Lemma autocovariance_inv x r :
  autocovariance x = Ok r ->
  x <> [] /\
  lags r = arange (- Z.of_nat (length x) + 1) (Z.of_nat (length x)) /\
  ac r = map (correlation_at (centred x) (centred x)) (lags r) /\
  ac_b r = map (fun c => (1 / inject_Z (Z.of_nat (length x)) * c)%Q) (ac r) /\
  ac_u r = zip_with
             (fun l c =>
                (1 / inject_Z (Z.of_nat (length x) - Z.abs l) * c)%Q)
             (lags r) (ac r).
Proof.
  intros Hrun. destruct x as [|y x]; [discriminate|].
  split; [done|]. unfold autocovariance in Hrun.
  apply bind_ok in Hrun as (c & Hc & Hrun).
  injection Hrun as <-. cbn [lags ac ac_b ac_u].
  assert (c = map (correlation_at (centred (y :: x)) (centred (y :: x)))
                (arange (- Z.of_nat (length (y :: x)) + 1)
                        (Z.of_nat (length (y :: x))))) as ->; [|done].
  unfold correlate_full in Hc. rewrite length_centred in Hc.
  unfold centred in Hc at 1 2. cbn [map] in Hc. injection Hc as <-.
  fold (centred (y :: x)). do 2 f_equal. cbn [length]. lia.
Qed.

Lemma autocovariance_ok x :
  x <> [] -> exists r, autocovariance x = Ok r.
Proof. destruct x as [|y x]; [done|]. intros _. eexists. reflexivity. Qed.

(** The four arrays at one index. *)
Lemma autocovariance_lookup x r (i : nat) :
  autocovariance x = Ok r ->
  (i < 2 * length x - 1)%nat ->
  let n := Z.of_nat (length x) in
  let l := (- n + 1 + Z.of_nat i)%Z in
  let c := correlation_at (centred x) (centred x) l in
  lags r !! i = Some l /\
  ac r !! i = Some c /\
  ac_b r !! i = Some (1 / inject_Z n * c)%Q /\
  ac_u r !! i = Some (1 / inject_Z (n - Z.abs l) * c)%Q.
Proof.
  intros Hrun Hi n l c.
  apply autocovariance_inv in Hrun as (_ & Hl & Hac & Hb & Hu).
  assert (H1 : lags r !! i = Some l).
  { rewrite Hl, arange_lookup.
    destruct (decide _) as [|Hn]; [done | lia]. }
  assert (H2 : ac r !! i = Some c).
  { rewrite Hac. change (map ?f ?t) with (f <$> t).
    by rewrite list_lookup_fmap, H1. }
  split; [done|]. split; [done|]. split.
  - rewrite Hb. change (map ?f ?t) with (f <$> t).
    by rewrite list_lookup_fmap, H2.
  - rewrite Hu, lookup_zip_with, H1. simpl. by rewrite H2.
Qed.

Lemma inject_Z_nonzero (z : Z) : z <> 0%Z -> ~ (inject_Z z == 0)%Q.
Proof. intros Hz Heq. apply Hz. unfold Qeq in Heq. simpl in Heq. lia. Qed.

Lemma autocovariance_nonempty x r :
  autocovariance x = Ok r -> (1 <= length x)%nat.
Proof.
  intros Hrun. apply autocovariance_inv in Hrun as [Hx _].
  destruct x; [done | simpl; lia].
Qed.

(** X12: what the supplement's cell returns. An empty recording is
    refused with ValueError. For N >= 1 samples the cell returns the lags
    and the three autocovariance arrays, each of length 2N-1, and every
    denominator N - |lag| of the unbiased estimate lies between 1 and N,
    so the division is never by zero. *)
Theorem autocovariance_shapes x :
  match x with
  | [] => autocovariance x = Raise ValueError
  | _ :: _ =>
      exists r,
        autocovariance x = Ok r /\
        length (lags r) = (2 * length x - 1)%nat /\
        length (ac r) = (2 * length x - 1)%nat /\
        length (ac_b r) = (2 * length x - 1)%nat /\
        length (ac_u r) = (2 * length x - 1)%nat /\
        Forall (fun lag =>
                  (1 <= Z.of_nat (length x) - Z.abs lag
                     <= Z.of_nat (length x))%Z)
               (lags r)
  end.
Proof.
  destruct x as [|y x]; [reflexivity|].
  destruct (autocovariance_ok (y :: x)) as [r Hrun]; [done|].
  exists r. split; [done|].
  apply autocovariance_inv in Hrun as (_ & Hl & Hac & Hb & Hu).
  assert (H1 : length (lags r) = (2 * length (y :: x) - 1)%nat).
  { rewrite Hl, length_arange. lia. }
  assert (H2 : length (ac r) = (2 * length (y :: x) - 1)%nat).
  { by rewrite Hac, length_map. }
  split; [done|]. split; [done|]. split; [|split].
  - by rewrite Hb, length_map.
  - rewrite Hu, length_zip_with, H1, H2. lia.
  - apply Forall_lookup. intros i lag Hi.
    rewrite Hl, arange_lookup in Hi.
    destruct (decide _) as [Hlt|]; [|done]. injection Hi as <-.
    cbn [length] in *. lia.
Qed.

(** X14: the autocovariance is symmetric in the lag. Two indices that
    mirror each other about the middle of the arrays (lags L and -L) hold
    equal values, in the raw correlation and in both estimates. *)
Theorem autocovariance_symmetric x r (i j : nat) :
  autocovariance x = Ok r ->
  (i + j = 2 * length x - 2)%nat ->
  exists ci cj bi bj ui uj,
    ac r !! i = Some ci /\ ac r !! j = Some cj /\
    ac_b r !! i = Some bi /\ ac_b r !! j = Some bj /\
    ac_u r !! i = Some ui /\ ac_u r !! j = Some uj /\
    (ci == cj)%Q /\ (bi == bj)%Q /\ (ui == uj)%Q.
Proof.
  intros Hrun Hij.
  pose proof (autocovariance_nonempty x r Hrun) as Hx.
  destruct (autocovariance_lookup x r i Hrun) as (_ & Hci & Hbi & Hui); [lia|].
  destruct (autocovariance_lookup x r j Hrun) as (_ & Hcj & Hbj & Huj); [lia|].
  do 6 eexists.
  split; [exact Hci|]. split; [exact Hcj|].
  split; [exact Hbi|]. split; [exact Hbj|].
  split; [exact Hui|]. split; [exact Huj|].
  set (n := Z.of_nat (length x)) in *.
  replace (- n + 1 + Z.of_nat j)%Z with (- (- n + 1 + Z.of_nat i))%Z by lia.
  set (lag := (- n + 1 + Z.of_nat i)%Z).
  assert (Hsym : (correlation_at (centred x) (centred x) lag
                  == correlation_at (centred x) (centred x) (- lag))%Q).
  { apply correlation_at_sym. rewrite length_centred. lia. }
  split; [done|]. rewrite Z.abs_opp. rewrite Hsym. split; reflexivity.
Qed.

(** X15: the zero lag. The middle entry of the raw correlation is the
    sum of the squared deviations from the mean, so it is never negative,
    and there the biased and the unbiased estimate coincide. *)
Theorem zero_lag_autocovariance x r :
  autocovariance x = Ok r ->
  exists c b u,
    ac r !! (length x - 1)%nat = Some c /\
    ac_b r !! (length x - 1)%nat = Some b /\
    ac_u r !! (length x - 1)%nat = Some u /\
    (c == Qsum (map (fun y => y * y) (centred x)))%Q /\
    (0 <= c)%Q /\
    (b == u)%Q.
Proof.
  intros Hrun.
  pose proof (autocovariance_nonempty x r Hrun) as Hx.
  destruct (autocovariance_lookup x r (length x - 1) Hrun)
    as (_ & Hc & Hb & Hu); [lia|].
  replace (- Z.of_nat (length x) + 1 + Z.of_nat (length x - 1))%Z
    with 0%Z in * by lia.
  do 3 eexists.
  split; [exact Hc|]. split; [exact Hb|]. split; [exact Hu|].
  split; [apply correlation_at_zero|]. split.
  - rewrite correlation_at_zero. apply Qsum_squares_nonneg.
  - change (Z.abs 0) with 0%Z. by rewrite Z.sub_0_r.
Qed.

(** X13: the biased estimate is the smaller one. At every index the
    biased value, the raw correlation over N, is never larger in magnitude
    than the unbiased value, the raw correlation over N - |lag|. *)
Theorem biased_magnitude_at_most_unbiased x r (i : nat) (b u : Q) :
  autocovariance x = Ok r ->
  ac_b r !! i = Some b ->
  ac_u r !! i = Some u ->
  (Qabs b <= Qabs u)%Q.
Proof.
  intros Hrun Hb Hu.
  assert (Hi : (i < 2 * length x - 1)%nat).
  { apply lookup_lt_Some in Hb.
    apply autocovariance_inv in Hrun as (_ & Hl & Hac & Hab & _).
    rewrite Hab, Hac, Hl, !length_map, length_arange in Hb. lia. }
  destruct (autocovariance_lookup x r i Hrun Hi) as (_ & _ & H3 & H4).
  rewrite H3 in Hb. injection Hb as <-.
  rewrite H4 in Hu. injection Hu as <-.
  set (n := Z.of_nat (length x)) in *.
  set (lag := (- n + 1 + Z.of_nat i)%Z) in *.
  set (c := correlation_at (centred x) (centred x) lag).
  assert (Hn : ~ (inject_Z n == 0)%Q) by (apply inject_Z_nonzero; lia).
  assert (Hd : ~ (inject_Z (n - Z.abs lag) == 0)%Q)
    by (apply inject_Z_nonzero; lia).
  assert (Eb : (inject_Z n * (1 / inject_Z n * c) == c)%Q) by (by field).
  assert (Eu : (inject_Z (n - Z.abs lag)
                * (1 / inject_Z (n - Z.abs lag) * c) == c)%Q) by (by field).
  assert (Ab : (inject_Z n * Qabs (1 / inject_Z n * c) == Qabs c)%Q).
  { eapply Qeq_trans; [|apply Qabs_wd; exact Eb].
    generalize (1 / inject_Z n * c)%Q. intros t.
    rewrite (Qabs_Qmult (inject_Z n) t), (Qabs_pos (inject_Z n));
      [reflexivity|].
    rewrite <- (Zle_Qle 0). lia. }
  assert (Au : (inject_Z (n - Z.abs lag)
                * Qabs (1 / inject_Z (n - Z.abs lag) * c) == Qabs c)%Q).
  { eapply Qeq_trans; [|apply Qabs_wd; exact Eu].
    generalize (1 / inject_Z (n - Z.abs lag) * c)%Q. intros t.
    rewrite (Qabs_Qmult (inject_Z (n - Z.abs lag)) t),
      (Qabs_pos (inject_Z (n - Z.abs lag))); [reflexivity|].
    rewrite <- (Zle_Qle 0). lia. }
  assert (Hpos : (0 <= Qabs (1 / inject_Z (n - Z.abs lag) * c))%Q)
    by apply Qabs_nonneg.
  assert (Hdn : (inject_Z (n - Z.abs lag) <= inject_Z n)%Q)
    by (rewrite <- Zle_Qle; lia).
  assert (Hn1 : (1 <= inject_Z n)%Q) by (rewrite <- (Zle_Qle 1); lia).
  revert Ab Au Hpos Hdn Hn1.
  generalize (Qabs (1 / inject_Z n * c)) (Qabs c)
             (Qabs (1 / inject_Z (n - Z.abs lag) * c))
             (inject_Z n) (inject_Z (n - Z.abs lag)).
  intros qb qc qu qn qd Ab Au Hpos Hdn Hn1. nra.
Qed.

(** X16: the largest lag, L = N-1. The last entry of the raw correlation
    is the single product (x[N-1] - mean) * (x[0] - mean), and the
    unbiased estimate at that lag, whose denominator is 1, is that
    product itself. *)
Theorem extreme_lag_autocovariance x r (x0 xl : Q) :
  autocovariance x = Ok r ->
  x !! 0%nat = Some x0 ->
  x !! (length x - 1)%nat = Some xl ->
  exists c u,
    ac r !! (2 * length x - 2)%nat = Some c /\
    ac_u r !! (2 * length x - 2)%nat = Some u /\
    (c == (xl - mean x) * (x0 - mean x))%Q /\
    (u == c)%Q.
Proof.
  intros Hrun H0 Hl.
  pose proof (autocovariance_nonempty x r Hrun) as Hx.
  destruct (autocovariance_lookup x r (2 * length x - 2) Hrun)
    as (_ & Hc & _ & Hu); [lia|].
  set (n := Z.of_nat (length x)) in *.
  replace (- n + 1 + Z.of_nat (2 * length x - 2))%Z with (n - 1)%Z in *
    by lia.
  do 2 eexists.
  split; [exact Hc|]. split; [exact Hu|].
  replace (n - Z.abs (n - 1))%Z with 1%Z by lia.
  split.
  - unfold n. rewrite <- (length_centred x).
    rewrite correlation_at_last by (rewrite length_centred; lia).
    rewrite length_centred.
    replace (Z.of_nat (length x) - 1)%Z with (Z.of_nat (length x - 1)) by lia.
    rewrite (padded_lookup (centred x) (length x - 1) (xl - mean x)%Q).
    + change (padded (centred x) 0)
        with (padded (centred x) (Z.of_nat 0)).
      rewrite (padded_lookup (centred x) 0 (x0 - mean x)%Q); [reflexivity|].
      unfold centred. change (map ?f ?t) with (f <$> t).
      by rewrite list_lookup_fmap, H0.
    + unfold centred. change (map ?f ?t) with (f <$> t).
      by rewrite list_lookup_fmap, Hl.
  - change (inject_Z 1) with 1%Q. field.
Qed.

End AutocovarianceFacts.

(** ** The further theorems at concrete inputs *)

Lemma coarse_run_v1 : simulate_v1 coarse_Q = Ok coarse_trace_v1.
Proof. reflexivity. Qed.

Lemma reset_above_run : simulate reset_above_Q = Ok reset_above_trace.
Proof. reflexivity. Qed.

Lemma three_samples_run :
  autocovariance three_samples = Ok three_samples_result.
Proof. reflexivity. Qed.

Lemma gentle_run_v1 : simulate_v1 gentle_Q = Ok gentle_trace.
Proof. reflexivity. Qed.

Lemma below_threshold_same_as_v1_witness :
  simulate_v1 gentle_Q = Ok gentle_trace /\
  (forall k x, (1 <= k)%nat -> (Z.of_nat k <= N gentle_Q - 2)%Z ->
               gentle_trace !! k = Some x ->
               gt (candidate gentle_Q x) (Vth gentle_Q) = false) /\
  simulate gentle_Q = Ok gentle_trace.
Proof.
  assert (Hno : forall k x, (1 <= k)%nat ->
                  (Z.of_nat k <= N gentle_Q - 2)%Z ->
                  gentle_trace !! k = Some x ->
                  gt (candidate gentle_Q x) (Vth gentle_Q) = false).
  { intros k x Hk HkN Hx.
    destruct k as [|[|[|[|k]]]]; try (simpl in HkN; lia);
      injection Hx as <-; reflexivity. }
  exact (conj gentle_run_v1 (conj Hno
           (below_threshold_same_as_v1 gentle_Q gentle_trace
              gentle_run_v1 Hno))).
Defined.

Lemma threshold_loop_after_v1_witness :
  simulate_v1 coarse_Q = Ok coarse_trace_v1 /\
  threshold_loop coarse_Q coarse_trace_v1 = simulate coarse_Q.
Proof.
  exact (conj coarse_run_v1
           (threshold_loop_after_v1 coarse_Q coarse_trace_v1 coarse_run_v1)).
Defined.

Lemma threshold_loop_idempotent_witness :
  threshold_loop coarse_Q [7; 7; 7; 7; 7; 7]%Q
    = Ok [7; 7; 0; 1 # 2; 4 # 4; 0]%Q /\
  threshold_loop coarse_Q [7; 7; 0; 1 # 2; 4 # 4; 0]%Q
    = Ok [7; 7; 0; 1 # 2; 4 # 4; 0]%Q.
Proof.
  assert (Hrun : threshold_loop coarse_Q [7; 7; 7; 7; 7; 7]%Q
                 = Ok [7; 7; 0; 1 # 2; 4 # 4; 0]%Q) by reflexivity.
  exact (conj Hrun (threshold_loop_idempotent coarse_Q _ _ Hrun)).
Defined.

Lemma equal_voltage_equal_future_witness :
  simulate coarse_Q = Ok coarse_trace /\
  (1 <= 1)%nat /\ (1 <= 4)%nat /\
  coarse_trace !! 1%nat = Some 0%Q /\
  coarse_trace !! 4%nat = Some 0%Q /\
  (Z.of_nat (1 + 1) < N coarse_Q)%Z /\
  (Z.of_nat (4 + 1) < N coarse_Q)%Z /\
  coarse_trace !! (1 + 1)%nat = coarse_trace !! (4 + 1)%nat.
Proof.
  assert (Hi : (1 <= 1)%nat) by lia.
  assert (Hj : (1 <= 4)%nat) by lia.
  assert (Hxi : coarse_trace !! 1%nat = Some 0%Q) by reflexivity.
  assert (Hxj : coarse_trace !! 4%nat = Some 0%Q) by reflexivity.
  assert (Him : (Z.of_nat (1 + 1) < N coarse_Q)%Z) by (simpl; lia).
  assert (Hjm : (Z.of_nat (4 + 1) < N coarse_Q)%Z) by (simpl; lia).
  exact (conj coarse_run (conj Hi (conj Hj (conj Hxi (conj Hxj
           (conj Him (conj Hjm
              (equal_voltage_equal_future coarse_Q coarse_trace 1 4 1 0%Q
                 coarse_run Hi Hj Hxi Hxj Him Hjm)))))))).
Defined.

Lemma reset_above_threshold_sticks_witness :
  simulate reset_above_Q = Ok reset_above_trace /\
  (Vth reset_above_Q < Vreset reset_above_Q + dV reset_above_Q)%Q /\
  (1 <= 4)%nat /\ (4 <= 5)%nat /\
  reset_above_trace !! 4%nat = Some (Vreset reset_above_Q) /\
  reset_above_trace !! 5%nat = Some 2%Q /\
  2%Q = Vreset reset_above_Q.
Proof.
  assert (Hlt : (Vth reset_above_Q
                 < Vreset reset_above_Q + dV reset_above_Q)%Q)
    by reflexivity.
  assert (Hk : (1 <= 4)%nat) by lia.
  assert (Hkm : (4 <= 5)%nat) by lia.
  assert (Hx : reset_above_trace !! 4%nat = Some (Vreset reset_above_Q))
    by reflexivity.
  assert (Hy : reset_above_trace !! 5%nat = Some 2%Q) by reflexivity.
  exact (conj reset_above_run (conj Hlt (conj Hk (conj Hkm (conj Hx (conj Hy
           (reset_above_threshold_sticks reset_above_Q reset_above_trace
              4 5 2%Q reset_above_run Hlt Hk Hkm Hx Hy))))))).
Defined.

Lemma voltage_bounded_below_witness :
  simulate coarse_Q = Ok coarse_trace /\
  (0 <= dV coarse_Q)%Q /\
  (1 <= 2)%nat /\
  coarse_trace !! 2%nat = Some (1 # 2)%Q /\
  (Qmin 0 (Vreset coarse_Q) <= 1 # 2)%Q.
Proof.
  assert (HdV : (0 <= dV coarse_Q)%Q) by discriminate.
  assert (Hk : (1 <= 2)%nat) by lia.
  assert (Hx : coarse_trace !! 2%nat = Some (1 # 2)%Q) by reflexivity.
  exact (conj coarse_run (conj HdV (conj Hk (conj Hx
           (voltage_bounded_below coarse_Q coarse_trace 2 (1 # 2)%Q
              coarse_run HdV Hk Hx))))).
Defined.

Lemma autocovariance_symmetric_witness :
  autocovariance three_samples = Ok three_samples_result /\
  (1 + 3 = 2 * length three_samples - 2)%nat /\
  exists ci cj bi bj ui uj,
    ac three_samples_result !! 1%nat = Some ci /\
    ac three_samples_result !! 3%nat = Some cj /\
    ac_b three_samples_result !! 1%nat = Some bi /\
    ac_b three_samples_result !! 3%nat = Some bj /\
    ac_u three_samples_result !! 1%nat = Some ui /\
    ac_u three_samples_result !! 3%nat = Some uj /\
    (ci == cj)%Q /\ (bi == bj)%Q /\ (ui == uj)%Q.
Proof.
  assert (Hij : (1 + 3 = 2 * length three_samples - 2)%nat) by reflexivity.
  exact (conj three_samples_run (conj Hij
           (autocovariance_symmetric three_samples three_samples_result 1 3
              three_samples_run Hij))).
Defined.

Lemma zero_lag_autocovariance_witness :
  autocovariance three_samples = Ok three_samples_result /\
  exists c b u,
    ac three_samples_result !! (length three_samples - 1)%nat = Some c /\
    ac_b three_samples_result !! (length three_samples - 1)%nat = Some b /\
    ac_u three_samples_result !! (length three_samples - 1)%nat = Some u /\
    (c == Qsum (map (fun y => y * y) (centred three_samples)))%Q /\
    (0 <= c)%Q /\
    (b == u)%Q.
Proof.
  exact (conj three_samples_run
           (zero_lag_autocovariance three_samples three_samples_result
              three_samples_run)).
Defined.

Lemma coarse_float_run : simulate coarse_float = Ok coarse_float_trace.
Proof. vm_compute. reflexivity. Qed.

Lemma coarse_float_run_v1 :
  simulate_v1 coarse_float = Ok coarse_float_trace_v1.
Proof. vm_compute. reflexivity. Qed.

(** Before step 3 no candidate of the coarse run is above the threshold:
    the candidates are 0.5 and 1. *)
Lemma coarse_float_quiet (j : nat) (x : float) :
  (1 <= j)%nat -> (j < 3)%nat ->
  coarse_float_trace_v1 !! j = Some x ->
  gt (candidate coarse_float x) (Vth coarse_float) = false.
Proof.
  intros Hj1 Hj3 Hx.
  destruct j as [|[|[|j]]]; [lia | | | lia];
    apply (inj Some) in Hx; rewrite <- Hx; reflexivity.
Qed.



Lemma v1_running_sum_witness :
  is_zero (C coarse_float) = false /\
  (1 <= N coarse_float)%Z /\
  exists tr,
    simulate_v1 coarse_float = Ok tr /\
    Z.of_nat (length tr) = N coarse_float /\
    tr !! 0%nat = Some (V0 coarse_float) /\
    ((2 <= N coarse_float)%Z -> tr !! 1%nat = Some zero) /\
    (forall k x,
       (1 <= k)%nat -> (Z.of_nat k <= N coarse_float - 2)%Z ->
       tr !! k = Some x ->
       tr !! (k + 1)%nat
       = Some (add x (mul (dt coarse_float)
                          (div (I coarse_float) (C coarse_float))))) /\
    (forall v, exists tr',
       simulate_v1 (with_V0 coarse_float v) = Ok tr' /\
       forall k, (1 <= k)%nat -> tr' !! k = tr !! k).
Proof.
  assert (HC : is_zero (C coarse_float) = false) by reflexivity.
  assert (HN : (1 <= N coarse_float)%Z) by (simpl; lia).
  exact (conj HC (conj HN (v1_running_sum coarse_float HC HN))).
Defined.

Lemma versions_agree_before_first_spike_witness :
  simulate_v1 coarse_float = Ok coarse_float_trace_v1 /\
  simulate coarse_float = Ok coarse_float_trace /\
  (forall j x, (1 <= j)%nat -> (j < 3)%nat ->
               coarse_float_trace_v1 !! j = Some x ->
               gt (candidate coarse_float x) (Vth coarse_float) = false) /\
  (3 <= 3)%nat /\
  coarse_float_trace !! 3%nat = coarse_float_trace_v1 !! 3%nat.
Proof.
  assert (Hi : (3 <= 3)%nat) by lia.
  exact (conj coarse_float_run_v1 (conj coarse_float_run
           (conj coarse_float_quiet (conj Hi
              (versions_agree_before_first_spike coarse_float
                 coarse_float_trace_v1 coarse_float_trace 3 3
                 coarse_float_run_v1 coarse_float_run
                 coarse_float_quiet Hi))))).
Defined.

Lemma first_spike_where_v1_crosses_witness :
  simulate_v1 coarse_float = Ok coarse_float_trace_v1 /\
  simulate coarse_float = Ok coarse_float_trace /\
  (1 <= 3)%nat /\
  (Z.of_nat 3 <= N coarse_float - 2)%Z /\
  (forall j x, (1 <= j)%nat -> (j < 3)%nat ->
               coarse_float_trace_v1 !! j = Some x ->
               gt (candidate coarse_float x) (Vth coarse_float) = false) /\
  coarse_float_trace_v1 !! 3%nat = Some 1%float /\
  gt (candidate coarse_float 1%float) (Vth coarse_float) = true /\
  coarse_float_trace !! (3 + 1)%nat = Some (Vreset coarse_float).
Proof.
  assert (Hk : (1 <= 3)%nat) by lia.
  assert (HkN : (Z.of_nat 3 <= N coarse_float - 2)%Z) by (simpl; lia).
  assert (Hx : coarse_float_trace_v1 !! 3%nat = Some 1%float)
    by reflexivity.
  assert (Hgt : gt (candidate coarse_float 1%float) (Vth coarse_float)
                = true) by reflexivity.
  exact (conj coarse_float_run_v1 (conj coarse_float_run (conj Hk
           (conj HkN (conj coarse_float_quiet (conj Hx (conj Hgt
              (first_spike_where_v1_crosses coarse_float
                 coarse_float_trace_v1 coarse_float_trace 3 1%float
                 coarse_float_run_v1 coarse_float_run Hk HkN
                 coarse_float_quiet Hx Hgt)))))))).
Defined.

Lemma cell_v2_axes_witness :
  is_zero (C coarse_float) = false /\
  (1 <= N coarse_float)%Z /\
  exists t V,
    cell_v2 coarse_float = Ok (t, V) /\
    simulate coarse_float = Ok V /\
    length t = length V /\
    Z.of_nat (length t) = N coarse_float /\
    (forall k tk, t !! k = Some tk ->
                  tk = mul (from_int (Z.of_nat k)) (dt coarse_float)).
Proof.
  assert (HC : is_zero (C coarse_float) = false) by reflexivity.
  assert (HN : (1 <= N coarse_float)%Z) by (simpl; lia).
  exact (conj HC (conj HN (cell_v2_axes coarse_float HC HN))).
Defined.

Lemma biased_magnitude_at_most_unbiased_witness :
  autocovariance three_samples = Ok three_samples_result /\
  ac_b three_samples_result !! 1%nat = Some (-27 # 729)%Q /\
  ac_u three_samples_result !! 1%nat = Some (-27 # 486)%Q /\
  (Qabs (-27 # 729) <= Qabs (-27 # 486))%Q.
Proof.
  assert (Hb : ac_b three_samples_result !! 1%nat = Some (-27 # 729)%Q)
    by reflexivity.
  assert (Hu : ac_u three_samples_result !! 1%nat = Some (-27 # 486)%Q)
    by reflexivity.
  exact (conj three_samples_run (conj Hb (conj Hu
           (biased_magnitude_at_most_unbiased three_samples
              three_samples_result 1 _ _ three_samples_run Hb Hu)))).
Defined.

Lemma extreme_lag_autocovariance_witness :
  autocovariance three_samples = Ok three_samples_result /\
  three_samples !! 0%nat = Some 1%Q /\
  three_samples !! (length three_samples - 1)%nat = Some 4%Q /\
  exists c u,
    ac three_samples_result !! (2 * length three_samples - 2)%nat = Some c /\
    ac_u three_samples_result !! (2 * length three_samples - 2)%nat
      = Some u /\
    (c == (4 - mean three_samples) * (1 - mean three_samples))%Q /\
    (u == c)%Q.
Proof.
  assert (H0 : three_samples !! 0%nat = Some 1%Q) by reflexivity.
  assert (Hl : three_samples !! (length three_samples - 1)%nat = Some 4%Q)
    by reflexivity.
  exact (conj three_samples_run (conj H0 (conj Hl
           (extreme_lag_autocovariance three_samples three_samples_result
              1 4 three_samples_run H0 Hl)))).
Defined.
